(** * SecureHex: the password and passphrase generator of [src/App.tsx]

    A shallow embedding of the generation-and-scoring core of the [App]
    component: [getSecureRandom], [calculateEntropy], [getPasswordStrength],
    [generateCharacterSet] and [generatePassword].

    Modelling conventions.
    - A JavaScript string is a [string]; every string constant of the source
      is ASCII, so UTF-16 code units and [ascii] characters coincide.
    - A JavaScript [number] holding an integer is a [Z] or an [N]; the
      entropy, the one fractional number of the program, is a real number
      ([R]) and [Math.log2] is the real logarithm to base 2: rounding of the
      binary64 arithmetic is abstracted away.
    - [crypto.getRandomValues] is a stream of unsigned 32-bit values that
      the code consumes one word at a time; the stream is threaded through
      the code by a small state monad, [Rand].
    - [Array.prototype.sort] with the random comparator is a parameter of
      the development (its result is engine dependent); the one property
      assumed of it is that it permutes the array it is given. *)

From Stdlib Require Import ZArith NArith Arith Bool List Ascii String.
From Stdlib Require Import Permutation Reals Lra Lia DecimalString.
Import ListNotations.

Open Scope string_scope.

(** ** Data model *)

(** [interface PasswordOptions]. *)
Record PasswordOptions := mkOptions {
  length : Z;
  includeLowercase : bool;
  includeUppercase : bool;
  includeNumbers : bool;
  includeSymbols : bool;
  excludeAmbiguous : bool;
  includeDashes : bool
}.

(** The union type ["password" | "passphrase"]. *)
Inductive PasswordType := TPassword | TPassphrase.

(** [interface GeneratedPassword]. *)
Record GeneratedPassword := mkGenerated {
  password : string;
  strength : Z;
  entropy : R;
  type : PasswordType
}.

(** [const WORD_LIST]. *)
Definition WORD_LIST : list string :=
  [ "Mountain"; "Ocean"; "Thunder"; "Phoenix"; "Dragon"; "Crystal"; "Shadow";
    "Lightning"; "Frost"; "Blaze"; "Storm"; "Eagle"; "Tiger"; "Wolf"; "Bear";
    "River"; "Forest"; "Star"; "Moon"; "Sun"; "Wind"; "Fire"; "Ice"; "Earth";
    "Sky"; "Cloud"; "Rain"; "Snow"; "Leaf"; "Tree"; "Rock"; "Gold"; "Silver";
    "Diamond"; "Ruby"; "Sapphire"; "Pearl"; "Coral"; "Wave"; "Tide"; "Shore" ].

(** The initial [options] state of the component. *)
Definition defaultOptions : PasswordOptions :=
  {| length := 16;
     includeLowercase := true; includeUppercase := true;
     includeNumbers := true; includeSymbols := true;
     excludeAmbiguous := false; includeDashes := false |}.

(** ** JavaScript string primitives *)

(** [s.split("")]. *)
Definition split (s : string) : list ascii := list_ascii_of_string s.

(** [a.join("")] on an array of one-character strings. *)
Definition join (l : list ascii) : string := string_of_list_ascii l.

(** [a.join(sep)] on an array of strings. *)
Definition joinWith (sep : string) (l : list string) : string :=
  String.concat sep l.

(** [s[i]]: the character at index [i], or [undefined] ([None]). *)
Definition charAt (s : string) (i : N) : option ascii :=
  String.get (N.to_nat i) s.

(** String conversion of a value that is a one-character string or
    [undefined], as [+=] performs it. *)
Definition charToString (c : option ascii) : string :=
  match c with
  | Some a => String a EmptyString
  | None => "undefined"
  end.

(** String conversion of an array element that is a string or [undefined],
    as a template literal performs it. *)
Definition wordToString (w : option string) : string :=
  match w with
  | Some s => s
  | None => "undefined"
  end.

(** String conversion of a non-negative integer, as a template literal
    performs it: decimal digits without padding. *)
Definition numberToString (n : N) : string :=
  NilZero.string_of_uint (N.to_uint n).

(** [ambiguous.includes(char)]. *)
Definition includes (s : string) (c : ascii) : bool :=
  existsb (Ascii.eqb c) (split s).

(** ** The randomness source *)

(** The successive 32-bit words that [crypto.getRandomValues] delivers. *)
Definition Uint32Source := nat -> N.

Definition Rand (A : Type) : Type := Uint32Source -> A * Uint32Source.

Definition ret {A} (a : A) : Rand A := fun src => (a, src).

Definition bind {A B} (m : Rand A) (k : A -> Rand B) : Rand B :=
  fun src => let (a, src') := m src in k a src'.

Notation "x <- m ;; k" := (bind m (fun x => k))
  (at level 61, m at next level, right associativity).

(** The value a computation returns when it is run on the stream [src]. *)
Definition evalRand {A} (m : Rand A) (src : Uint32Source) : A := fst (m src).

(** [crypto.getRandomValues(new Uint32Array(1))] followed by [array[0]]. *)
Definition getRandomValues : Rand N :=
  fun src => ((src 0%nat mod 2 ^ 32)%N, fun k => src (S k)).

(** [getSecureRandom(max)]: [array[0] % max].  Every call site passes a
    positive [max] (a literal, [WORD_LIST.length], or the length of a charset
    already tested to be non-empty). *)
Definition getSecureRandom (max : N) : Rand N :=
  v <- getRandomValues ;;
  ret (v mod max)%N.

(** ** Entropy and strength *)

Definition log2 (x : R) : R := (ln x / ln 2)%R.

(** [calculateEntropy(password, charset)]. *)
Definition calculateEntropy (password charset : string) : R :=
  (INR (String.length password) * log2 (INR (String.length charset)))%R.

(** [getPasswordStrength(_password, entropy)]. *)
Definition getPasswordStrength (_password : string) (entropy : R) : Z :=
  if Rlt_dec entropy 28 then 1
  else if Rlt_dec entropy 35 then 2
  else if Rlt_dec entropy 59 then 3
  else if Rlt_dec entropy 127 then 4
  else 5.

(** ** The character set *)

Definition lower : string := "abcdefghijklmnopqrstuvwxyz".
Definition upper : string := "ABCDEFGHIJKLMNOPQRSTUVWXYZ".
Definition numbers : string := "0123456789".
Definition symbols : string := "!@#$%^&*()_+-=[]{}|;:,.<>?".
Definition ambiguous : string := "O0Il1".

(** The literal from which the required symbol is drawn. *)
Definition requiredSymbols : string := "!@#$%^&*".

(** [generateCharacterSet()], with the [options] it closes over. *)
Definition generateCharacterSet (options : PasswordOptions) : string :=
  let charset := "" in
  let charset := if includeLowercase options then charset ++ lower else charset in
  let charset := if includeUppercase options then charset ++ upper else charset in
  let charset := if includeNumbers options then charset ++ numbers else charset in
  let charset := if includeSymbols options then charset ++ symbols else charset in
  if excludeAmbiguous options
  then join (filter (fun char => negb (includes ambiguous char)) (split charset))
  else charset.

(** ** Generation *)

(** [Array.from({ length: n }, f)]: [f] is called once per index, in
    increasing order. *)
Fixpoint arrayFrom {A} (n : nat) (f : Rand A) : Rand (list A) :=
  match n with
  | O => ret []
  | S n' =>
      x <- f ;;
      xs <- arrayFrom n' f ;;
      ret (x :: xs)
  end.

(** The loop [for (let i = password.length; i < options.length; i++)] of
    [generatePassword], with [n] the number of iterations left. *)
Fixpoint fillLoop (n : nat) (charset password : string) : Rand string :=
  match n with
  | O => ret password
  | S n' =>
      r <- getSecureRandom (N.of_nat (String.length charset)) ;;
      fillLoop n' charset (password ++ charToString (charAt charset r))
  end.

(** The loop [for (let i = 0; i < finalPassword.length; i++)] that inserts
    the dashes: [chars] holds [finalPassword[i]], [finalPassword[i+1]], ... *)
Fixpoint dashLoop (dashInterval i : nat) (chars : list ascii)
    (withDashes : string) : string :=
  match chars with
  | [] => withDashes
  | c :: chars' =>
      let withDashes :=
        if (0 <? i)%nat && (i mod dashInterval =? 0)%nat
        then withDashes ++ "-" else withDashes in
      dashLoop dashInterval (S i) chars' (withDashes ++ String c EmptyString)
  end.

(** The comparator [() => getSecureRandom(3) - 1]. *)
Definition randomComparator (_ _ : ascii) : Rand Z :=
  r <- getSecureRandom 3 ;;
  ret (Z.of_N r - 1)%Z.

(** The function given to [Array.from] in the passphrase branch: one
    word of [WORD_LIST] followed by one number below 100. *)
Definition passphraseToken : Rand string :=
  w <- getSecureRandom (N.of_nat (List.length WORD_LIST)) ;;
  let word := nth_error WORD_LIST (N.to_nat w) in
  number <- getSecureRandom 100 ;;
  ret (wordToString word ++ numberToString number).

Section Generator.

(** [Array.prototype.sort] of the engine: it receives the comparator and
    the array, and may call the comparator (hence draw random words) any
    number of times. *)
Variable sort : (ascii -> ascii -> Rand Z) -> list ascii -> Rand (list ascii).

(** The passphrase branch of [generatePassword]. *)
Definition generatePassphrase (options : PasswordOptions)
  : Rand GeneratedPassword :=
  let wordCount := Z.max 4 (Z.min 8 (length options / 4)) in
  tokens <- arrayFrom (Z.to_nat wordCount) passphraseToken ;;
  let passphrase := joinWith "-" tokens in
  let entropy := calculateEntropy passphrase "62" in
  ret {| password := passphrase;
         strength := getPasswordStrength passphrase entropy;
         entropy := entropy;
         type := TPassphrase |}.

(** The statements that fill [requiredChars]. *)
Definition drawRequiredChars (options : PasswordOptions)
  : Rand (list (option ascii)) :=
  let requiredChars : list (option ascii) := [] in
  requiredChars <-
    (if includeLowercase options
     then r <- getSecureRandom 26 ;; ret (requiredChars ++ [charAt lower r])%list
     else ret requiredChars) ;;
  requiredChars <-
    (if includeUppercase options
     then r <- getSecureRandom 26 ;; ret (requiredChars ++ [charAt upper r])%list
     else ret requiredChars) ;;
  requiredChars <-
    (if includeNumbers options
     then r <- getSecureRandom 10 ;; ret (requiredChars ++ [charAt numbers r])%list
     else ret requiredChars) ;;
  requiredChars <-
    (if includeSymbols options
     then r <- getSecureRandom 8 ;;
          ret (requiredChars ++ [charAt requiredSymbols r])%list
     else ret requiredChars) ;;
  ret requiredChars.

(** The dash formatting of the shuffled password. *)
Definition addDashes (options : PasswordOptions) (shuffled : string)
  : string :=
  let finalPassword := shuffled in
  if includeDashes options && (8 <? String.length finalPassword)%nat
  then
    let dashInterval := (String.length finalPassword / 4)%nat in
    dashLoop dashInterval 0 (split finalPassword) ""
  else finalPassword.

(** The statements that build [password] before it is shuffled: the
    required characters first, then the fill drawn from [charset]. *)
Definition assemblePassword (options : PasswordOptions) (charset : string)
  : Rand string :=
  let password := "" in
  requiredChars <- drawRequiredChars options ;;
  let password :=
    fold_left (fun password char => password ++ charToString char)
              requiredChars password in
  fillLoop (Z.to_nat (length options - Z.of_nat (String.length password)))
           charset password.

(** [password.split("").sort(() => getSecureRandom(3) - 1).join("")]. *)
Definition shuffle (password : string) : Rand string :=
  sorted <- sort randomComparator (split password) ;;
  ret (join sorted).

(** The password branch of [generatePassword]. *)
Definition generatePlainPassword (options : PasswordOptions)
  : Rand GeneratedPassword :=
  let charset := generateCharacterSet options in
  if (charset =? "")%string
  then ret {| password := ""; strength := 0; entropy := 0%R;
              type := TPassword |}
  else
    password <- assemblePassword options charset ;;
    shuffled <- shuffle password ;;
    let finalPassword := addDashes options shuffled in
    let entropy := calculateEntropy finalPassword charset in
    ret {| password := finalPassword;
           strength := getPasswordStrength finalPassword entropy;
           entropy := entropy;
           type := TPassword |}.

(** The value of [shuffled] in a run of the password branch, the secret
    before the dashes are inserted; the empty string in a run that
    returns before [shuffled] is computed. *)
Definition shuffledSecret (options : PasswordOptions) (src : Uint32Source)
  : string :=
  let charset := generateCharacterSet options in
  if (charset =? "")%string then ""
  else evalRand (password <- assemblePassword options charset ;;
                 shuffle password) src.

(** [generatePassword()], with the [passwordMode] and [options] it closes
    over. *)
Definition generatePassword (passwordMode : PasswordType)
    (options : PasswordOptions) : Rand GeneratedPassword :=
  match passwordMode with
  | TPassphrase => generatePassphrase options
  | TPassword => generatePlainPassword options
  end.

End Generator.

(** ** A reference engine sort

    An insertion sort driven by the comparator, one of the algorithms an
    engine may use for short arrays.  It instantiates the [sort] parameter
    wherever a concrete run of the generator is evaluated. *)

Fixpoint insertBy (cmp : ascii -> ascii -> Rand Z) (x : ascii)
    (l : list ascii) : Rand (list ascii) :=
  match l with
  | [] => ret [x]
  | y :: l' =>
      c <- cmp x y ;;
      if (c <=? 0)%Z then ret (x :: y :: l')
      else l'' <- insertBy cmp x l' ;; ret (y :: l'')
  end.

Fixpoint insertionSort (cmp : ascii -> ascii -> Rand Z) (l : list ascii)
    : Rand (list ascii) :=
  match l with
  | [] => ret []
  | x :: l' => s <- insertionSort cmp l' ;; insertBy cmp x s
  end.

(** Some fixed random streams. *)
Definition constSource (v : N) : Uint32Source := fun _ => v.
Definition countingSource : Uint32Source := fun k => N.of_nat (7 * k + 3).


(** Options used in concrete runs. *)
Definition dashedLowercaseOptions : PasswordOptions :=
  {| length := 16;
     includeLowercase := true; includeUppercase := false;
     includeNumbers := false; includeSymbols := false;
     excludeAmbiguous := false; includeDashes := true |}.

Definition symbolsOnlyOptions : PasswordOptions :=
  {| length := 16;
     includeLowercase := false; includeUppercase := false;
     includeNumbers := false; includeSymbols := true;
     excludeAmbiguous := false; includeDashes := false |}.

Definition noClassOptions : PasswordOptions :=
  {| length := 16;
     includeLowercase := false; includeUppercase := false;
     includeNumbers := false; includeSymbols := false;
     excludeAmbiguous := true; includeDashes := true |}.

(** ** Observations on results, used to state the properties *)

(** At least one character-class flag is set. *)
Definition anyClass (o : PasswordOptions) : bool :=
  includeLowercase o || includeUppercase o || includeNumbers o
  || includeSymbols o.

(** Number of occurrences of a character in a string. *)
Definition countChar (c : ascii) (s : string) : nat :=
  List.length (filter (Ascii.eqb c) (split s)).

(** The string without any ['-'] character. *)
Definition removeDashes (s : string) : string :=
  join (filter (fun c => negb (Ascii.eqb c "-")) (split s)).

(** [s] contains a character of the alphabet [alpha]. *)
Definition containsFrom (alpha s : string) : Prop :=
  exists c, In c (split alpha) /\ In c (split s).

(** Deletion of the characters at the positions [p], counted from [pos],
    with [p + 1] a multiple of [d + 1]: where a dash inserted every [d]
    characters lands. *)
Fixpoint stripInserted (d pos : nat) (l : list ascii) : list ascii :=
  match l with
  | [] => []
  | c :: l' =>
      if (S pos mod S d =? 0)%nat then stripInserted d (S pos) l'
      else c :: stripInserted d (S pos) l'
  end.

(** The alphabets the required characters are drawn from, in the order of
    the draws. *)
Definition requiredAlphabets (o : PasswordOptions) : list string :=
  ((if includeLowercase o then [lower] else [])
   ++ (if includeUppercase o then [upper] else [])
   ++ (if includeNumbers o then [numbers] else [])
   ++ (if includeSymbols o then [requiredSymbols] else []))%list.

(** The value that the [k]-th call of [getSecureRandom] on the stream
    returns when it is called with [max]. *)
Definition drawn (src : Uint32Source) (k : nat) (max : N) : N :=
  ((src k mod 2 ^ 32) mod max)%N.

(** One character per alphabet, the [k]-th and following draws deciding. *)
Fixpoint pickEach (src : Uint32Source) (k : nat) (alphas : list string)
    : list (option ascii) :=
  match alphas with
  | [] => []
  | alpha :: rest =>
      charAt alpha (drawn src k (N.of_nat (String.length alpha)))
      :: pickEach src (S k) rest
  end.

(** The number of dashes that [addDashes] inserts into a shuffled secret
    of [n] characters. *)
Definition dashCount (o : PasswordOptions) (n : nat) : nat :=
  if includeDashes o && (8 <? n)%nat then ((n - 1) / (n / 4))%nat else 0%nat.

(** The result returned when no character is available. *)
Definition emptyResult : GeneratedPassword :=
  {| password := ""; strength := 0; entropy := 0%R; type := TPassword |}.

(** [clamp(x, lo, hi)] by its cases. *)
Definition clamp (x lo hi : Z) : Z :=
  if (x <? lo)%Z then lo else if (hi <? x)%Z then hi else x.

(** The required characters as the specification words them: one draw per
    selected class from the seed alphabet of that class, the symbol class
    having the seed alphabet [symbols] of the character set. *)
Definition specRequiredAlphabets (o : PasswordOptions) : list string :=
  ((if includeLowercase o then [lower] else [])
   ++ (if includeUppercase o then [upper] else [])
   ++ (if includeNumbers o then [numbers] else [])
   ++ (if includeSymbols o then [symbols] else []))%list.

Definition specRequiredChars (o : PasswordOptions) (src : Uint32Source)
    : list (option ascii) :=
  pickEach src 0 (specRequiredAlphabets o).

(** ** Toast notifications

    [showToast] appends a toast to the [toasts] state and registers a
    timeout whose callback removes the toasts carrying its [id]; the value
    of [Date.now()] is an argument of the model, and the firing of a
    timeout is an event of its own. *)

Module ToastState.

(** The union type ["success" | "error"]. *)
Inductive ToastType := Success | Error.

(** [interface Toast]. *)
Record Toast := mkToast {
  id : Z;
  message : string;
  type : ToastType
}.

(** The updater [(prev) => [...prev, newToast]] of [showToast], with
    [now] the value of [Date.now()]. *)
Definition showToast (now : Z) (message : string) (type : ToastType)
    (prev : list Toast) : list Toast :=
  let id := now in
  let newToast := {| id := id; message := message; type := type |} in
  (prev ++ [newToast])%list.

(** The updater [(prev) => prev.filter((toast) => toast.id !== id)] that
    the timeout of [showToast] runs. *)
Definition timeoutCallback (id0 : Z) (prev : list Toast) : list Toast :=
  filter (fun toast => negb (id toast =? id0)%Z) prev.

(** What happens to the [toasts] state: a call of [showToast], or the
    timeout registered by the call made at [now] firing. *)
Inductive Event :=
| Show (now : Z) (message : string) (type : ToastType)
| Timeout (now : Z).

Definition step (toasts : list Toast) (e : Event) : list Toast :=
  match e with
  | Show now message type => showToast now message type toasts
  | Timeout now => timeoutCallback now toasts
  end.

(** The state after a sequence of events. *)
Definition run (events : list Event) (toasts : list Toast) : list Toast :=
  fold_left step events toasts.

(** A timeout for [id0] fires among [events]. *)
Definition firesIn (id0 : Z) (events : list Event) : bool :=
  existsb (fun e => match e with
                    | Timeout now => (now =? id0)%Z
                    | Show _ _ _ => false
                    end) events.

(** The toasts shown in [events] for which no timeout with their [id]
    fires later in [events], in the order they were shown. *)
Fixpoint pending (events : list Event) : list Toast :=
  match events with
  | [] => []
  | Show now message type :: rest =>
      if firesIn now rest then pending rest
      else {| id := now; message := message; type := type |} :: pending rest
  | Timeout _ :: rest => pending rest
  end.

End ToastState.

(** ** Further observations *)

(** Number of character classes selected. *)
Definition classCount (o : PasswordOptions) : nat :=
  (Nat.b2n (includeLowercase o) + Nat.b2n (includeUppercase o)
   + Nat.b2n (includeNumbers o) + Nat.b2n (includeSymbols o))%nat.

(** Number of selected classes whose seed alphabet holds an ambiguous
    character: the symbols hold none. *)
Definition ambiguousClassCount (o : PasswordOptions) : nat :=
  (Nat.b2n (includeLowercase o) + Nat.b2n (includeUppercase o)
   + Nat.b2n (includeNumbers o))%nat.

(** Number of characters of [s] that belong to [ambiguous]. *)
Definition countAmbiguous (s : string) : nat :=
  List.length (filter (includes ambiguous) (split s)).

(** The characters that [n] iterations of the fill loop append, the first
    of them decided by word [k] of the stream. *)
Fixpoint fillChars (src : Uint32Source) (k n : nat) (charset : string)
    : list (option ascii) :=
  match n with
  | O => []
  | S n' =>
      charAt charset (drawn src k (N.of_nat (String.length charset)))
      :: fillChars src (S k) n' charset
  end.

(** The token that call [i] of the [Array.from] callback returns: words
    [2 i] and [2 i + 1] of the stream decide it. *)
Definition tokenAt (src : Uint32Source) (i : nat) : string :=
  wordToString
    (nth_error WORD_LIST
       (N.to_nat (drawn src (2 * i) (N.of_nat (List.length WORD_LIST)))))
  ++ numberToString (drawn src (2 * i + 1) 100).

(** The strength tier decided on integers: the entropy [len * log2 n] is
    below [k] exactly when [n ^ len] is below [2 ^ k]. *)
Definition tierOfPower (n len : nat) : Z :=
  let p := (Z.of_nat n ^ Z.of_nat len)%Z in
  if (p <? 2 ^ 28)%Z then 1
  else if (p <? 2 ^ 35)%Z then 2
  else if (p <? 2 ^ 59)%Z then 3
  else if (p <? 2 ^ 127)%Z then 4
  else 5.


Definition lowercaseUnambiguousOptions : PasswordOptions :=
  {| length := 16;
     includeLowercase := true; includeUppercase := false;
     includeNumbers := false; includeSymbols := false;
     excludeAmbiguous := true; includeDashes := false |}.

Definition shortAllClassesOptions : PasswordOptions :=
  {| length := 2;
     includeLowercase := true; includeUppercase := true;
     includeNumbers := true; includeSymbols := true;
     excludeAmbiguous := false; includeDashes := true |}.

(** ** Strings and lists of characters *)

Lemma length_split (s : string) : List.length (split s) = String.length s.
Proof. induction s as [|c s IH]; simpl; [reflexivity | now rewrite IH]. Qed.

Lemma split_app (s t : string) : split (s ++ t) = (split s ++ split t)%list.
Proof. induction s as [|c s IH]; simpl; [reflexivity | now rewrite IH]. Qed.

Lemma split_join (l : list ascii) : split (join l) = l.
Proof. apply list_ascii_of_string_of_list_ascii. Qed.

Lemma join_split (s : string) : join (split s) = s.
Proof. apply string_of_list_ascii_of_string. Qed.

Lemma join_app (l m : list ascii) : join (l ++ m) = join l ++ join m.
Proof. induction l as [|c l IH]; simpl; [reflexivity | now rewrite IH]. Qed.

Lemma length_join (l : list ascii) : String.length (join l) = List.length l.
Proof. now rewrite <- length_split, split_join. Qed.

Lemma length_append (s t : string) :
  String.length (s ++ t) = (String.length s + String.length t)%nat.
Proof. now rewrite <- !length_split, split_app, length_app. Qed.

Lemma append_assoc (s t u : string) : (s ++ t) ++ u = s ++ (t ++ u).
Proof. induction s as [|c s IH]; simpl; [reflexivity | now rewrite IH]. Qed.

Lemma append_nil_r (s : string) : s ++ "" = s.
Proof. induction s as [|c s IH]; simpl; [reflexivity | now rewrite IH]. Qed.

Lemma get_nth_error (s : string) (n : nat) :
  String.get n s = nth_error (split s) n.
Proof.
  revert n; induction s as [|c s IH]; intros [|n]; simpl; auto.
Qed.

Lemma charAt_in_range (s : string) (i : N) :
  (i < N.of_nat (String.length s))%N ->
  exists c, charAt s i = Some c /\ In c (split s).
Proof.
  intros Hi. unfold charAt. rewrite get_nth_error.
  destruct (nth_error (split s) (N.to_nat i)) as [c|] eqn:E.
  - exists c; split; [reflexivity | eapply nth_error_In; eauto].
  - apply nth_error_None in E. rewrite length_split in E. lia.
Qed.

Lemma drawn_lt (src : Uint32Source) (k : nat) (max : N) :
  (0 < max)%N -> (drawn src k max < max)%N.
Proof. intros H. unfold drawn. apply N.mod_lt. lia. Qed.

(** ** The state monad *)

Lemma bind_run {A B} (m : Rand A) (k : A -> Rand B) (src : Uint32Source) :
  bind m k src = k (fst (m src)) (snd (m src)).
Proof. unfold bind. now destruct (m src). Qed.

Lemma getSecureRandom_run (max : N) (src : Uint32Source) :
  getSecureRandom max src = (drawn src 0 max, fun k => src (S k)).
Proof. reflexivity. Qed.

(** ** The required characters *)

Lemma drawRequiredChars_run (o : PasswordOptions) (src : Uint32Source) :
  drawRequiredChars o src
  = (pickEach src 0 (requiredAlphabets o),
     fun k => src (List.length (requiredAlphabets o) + k)%nat).
Proof.
  destruct o as [len lo up nu sy ea da].
  unfold drawRequiredChars, requiredAlphabets; simpl.
  destruct lo, up, nu, sy; reflexivity.
Qed.

Lemma requiredAlphabets_nonempty (o : PasswordOptions) :
  Forall (fun alpha => (0 < N.of_nat (String.length alpha))%N)
         (requiredAlphabets o).
Proof.
  unfold requiredAlphabets.
  destruct (includeLowercase o), (includeUppercase o), (includeNumbers o),
    (includeSymbols o); simpl; repeat constructor.
Qed.

Lemma pickEach_some (src : Uint32Source) (alphas : list string) :
  Forall (fun alpha => (0 < N.of_nat (String.length alpha))%N) alphas ->
  forall k, exists cs,
    pickEach src k alphas = map Some cs
    /\ Forall2 (fun c alpha => In c (split alpha)) cs alphas.
Proof.
  induction 1 as [|alpha rest Hpos _ IH]; intros k.
  - exists []; split; constructor.
  - destruct (IH (S k)) as [cs [E F]].
    destruct (charAt_in_range alpha (drawn src k (N.of_nat (String.length alpha))))
      as [c [Ec Hc]]; [now apply drawn_lt|].
    exists (c :: cs); simpl. rewrite Ec, E. split; [reflexivity|now constructor].
Qed.

Lemma fold_append_some (cs : list ascii) (acc : string) :
  fold_left (fun password char => password ++ charToString char)
            (map Some cs) acc
  = acc ++ join cs.
Proof.
  revert acc; induction cs as [|c cs IH]; intros acc; simpl.
  - now rewrite append_nil_r.
  - rewrite IH, append_assoc. reflexivity.
Qed.

(** ** The fill loop *)

Lemma fillLoop_run (charset : string) :
  charset <> "" ->
  forall n password src, exists fill,
    fst (fillLoop n charset password src) = password ++ join fill
    /\ List.length fill = n
    /\ Forall (fun c => In c (split charset)) fill.
Proof.
  intros Hne. assert (Hpos : (0 < N.of_nat (String.length charset))%N).
  { destruct charset; [congruence | simpl; lia]. }
  induction n as [|n IH]; intros password src.
  - exists []; simpl. rewrite append_nil_r. repeat split; constructor.
  - simpl. rewrite bind_run, getSecureRandom_run; simpl fst; simpl snd.
    destruct (charAt_in_range charset
                (drawn src 0 (N.of_nat (String.length charset))))
      as [c [Ec Hc]]; [now apply drawn_lt|].
    rewrite Ec.
    destruct (IH (password ++ charToString (Some c)) (fun k => src (S k)))
      as [fill [E [L F]]].
    exists (c :: fill). rewrite E. simpl.
    rewrite append_assoc. repeat split; simpl; auto.
Qed.

(** ** The assembled and the shuffled password *)

Lemma assemblePassword_run (o : PasswordOptions) (charset : string)
    (src : Uint32Source) :
  charset <> "" ->
  exists req fill,
    fst (assemblePassword o charset src) = join (req ++ fill)
    /\ pickEach src 0 (requiredAlphabets o) = map Some req
    /\ Forall2 (fun c alpha => In c (split alpha)) req (requiredAlphabets o)
    /\ List.length fill = Z.to_nat (length o - Z.of_nat (List.length req))
    /\ Forall (fun c => In c (split charset)) fill.
Proof.
  intros Hne. unfold assemblePassword.
  rewrite bind_run, drawRequiredChars_run; simpl fst; simpl snd.
  destruct (pickEach_some src _ (requiredAlphabets_nonempty o) 0%nat)
    as [req [E F]].
  rewrite E, fold_append_some. simpl append.
  destruct (fillLoop_run charset Hne
              (Z.to_nat (length o - Z.of_nat (String.length (join req))))
              (join req)
              (fun k => src (List.length (requiredAlphabets o) + k)%nat))
    as [fill [Ef [L Fc]]].
  exists req, fill. rewrite Ef, join_app.
  rewrite length_join in L. auto.
Qed.

Lemma generatePlainPassword_run
    (sort : (ascii -> ascii -> Rand Z) -> list ascii -> Rand (list ascii))
    (o : PasswordOptions) (src : Uint32Source) :
  generateCharacterSet o <> "" ->
  evalRand (generatePlainPassword sort o) src
  = let finalPassword := addDashes o (shuffledSecret sort o src) in
    let entropy := calculateEntropy finalPassword (generateCharacterSet o) in
    {| password := finalPassword;
       strength := getPasswordStrength finalPassword entropy;
       entropy := entropy;
       type := TPassword |}.
Proof.
  intros Hne. unfold generatePlainPassword, shuffledSecret, evalRand.
  destruct (String.eqb_spec (generateCharacterSet o) ""); [contradiction|].
  rewrite !bind_run. reflexivity.
Qed.

Lemma charset_nonempty (o : PasswordOptions) :
  anyClass o = true -> generateCharacterSet o <> "".
Proof.
  destruct o as [len lo up nu sy ea da]. unfold anyClass; simpl.
  destruct lo, up, nu, sy, ea; simpl; intros H; try discriminate H;
    vm_compute; discriminate.
Qed.

Lemma charset_empty (o : PasswordOptions) :
  anyClass o = false -> generateCharacterSet o = "".
Proof.
  destruct o as [len lo up nu sy ea da]. unfold anyClass; simpl.
  destruct lo, up, nu, sy, ea; simpl; intros H; try discriminate H;
    reflexivity.
Qed.

(** ** Arithmetic of the dash positions *)

Lemma div_pred_multiple (d n : nat) :
  (1 <= d -> 0 < n -> n mod d = 0 -> S ((n - 1) / d) = n / d)%nat.
Proof.
  intros Hd Hn Hm.
  pose proof (Nat.div_mod_eq n d) as E. rewrite Hm in E.
  assert (1 <= n / d)%nat by (destruct (n / d); [lia | lia]).
  assert (Hq : ((n - 1) / d = n / d - 1)%nat).
  { symmetry. apply Nat.div_unique with (r := (d - 1)%nat); [lia|].
    remember (n / d)%nat as q. destruct q as [|q]; [lia|].
    replace (S q - 1)%nat with q by lia. nia. }
  lia.
Qed.

Lemma div_pred_other (d n : nat) :
  (1 <= d -> n mod d <> 0 -> (n - 1) / d = n / d)%nat.
Proof.
  intros Hd Hm.
  pose proof (Nat.div_mod_eq n d) as E.
  pose proof (Nat.mod_upper_bound n d ltac:(lia)) as B.
  symmetry. apply Nat.div_unique with (r := (n mod d - 1)%nat); lia.
Qed.

Lemma succ_pos_multiple (d n : nat) :
  (1 <= d -> 0 < n -> n mod d = 0 ->
   S (n + (n - 1) / d) mod S d = 0 /\ S (S (n + (n - 1) / d)) mod S d = 1)%nat.
Proof.
  intros Hd Hn Hm.
  pose proof (div_pred_multiple d n Hd Hn Hm) as Hq.
  pose proof (Nat.div_mod_eq n d) as E. rewrite Hm in E.
  split; symmetry.
  - apply Nat.mod_unique with (q := (n / d)%nat); [lia | nia].
  - apply Nat.mod_unique with (q := (n / d)%nat); [lia | nia].
Qed.

Lemma succ_pos_other (d n : nat) :
  (1 <= d -> n = 0 \/ n mod d <> 0 ->
   S (n + (n - 1) / d) mod S d <> 0)%nat.
Proof.
  intros Hd [->|Hm].
  - simpl Nat.sub. rewrite Nat.Div0.div_0_l.
    rewrite Nat.mod_small; lia.
  - rewrite (div_pred_other d n Hd Hm).
    pose proof (Nat.div_mod_eq n d) as E.
    pose proof (Nat.mod_upper_bound n d ltac:(lia)) as B.
    assert (U : (S (n mod d) = S (n + n / d) mod S d)%nat)
      by (apply Nat.mod_unique with (q := (n / d)%nat); [lia | nia]).
    rewrite <- U. lia.
Qed.

(** ** The dash loop *)

Lemma dashLoop_snoc (d : nat) (chars : list ascii) :
  forall i acc c,
    dashLoop d i (chars ++ [c]) acc
    = (if (0 <? i + List.length chars)%nat
          && ((i + List.length chars) mod d =? 0)%nat
       then dashLoop d i chars acc ++ "-"
       else dashLoop d i chars acc) ++ String c EmptyString.
Proof.
  induction chars as [|a chars IH]; intros i acc c; simpl.
  - now rewrite Nat.add_0_r.
  - rewrite IH, Nat.add_succ_r. reflexivity.
Qed.

Lemma stripInserted_app (d : nat) (l m : list ascii) :
  forall pos,
    stripInserted d pos (l ++ m)
    = (stripInserted d pos l ++ stripInserted d (pos + List.length l) m)%list.
Proof.
  induction l as [|c l IH]; intros pos; cbn [stripInserted app List.length].
  - now rewrite Nat.add_0_r.
  - rewrite IH, Nat.add_succ_r.
    destruct (S pos mod S d =? 0)%nat; reflexivity.
Qed.

(** The characters produced by the dash loop started on an empty string. *)
Lemma dashLoop_inv (d : nat) (l : list ascii) :
  (1 <= d)%nat ->
  let out := split (dashLoop d 0 l "") in
  List.length out = (List.length l + (List.length l - 1) / d)%nat
  /\ stripInserted d 0 out = l
  /\ (forall i, (i < List.length l)%nat ->
        nth_error out (i + i / d) = nth_error l i)
  /\ (forall k, (1 <= k)%nat -> (k * d < List.length l)%nat ->
        nth_error out (k * d + k - 1) = Some "-"%char).
Proof.
  intros Hd. induction l as [|c l IH] using rev_ind.
  - cbn [dashLoop split list_ascii_of_string List.length].
    repeat split.
    + simpl Nat.sub. now rewrite Nat.Div0.div_0_l.
    + intros i Hi. inversion Hi.
    + intros k _ Hk. inversion Hk.
  - destruct IH as [Hlen [Hstrip [Hget Hdash]]].
    rewrite dashLoop_snoc, length_app. cbn [List.length Nat.add].
    set (n := List.length l) in *.
    set (f := dashLoop d 0 l "") in *.
    replace (n + 1 - 1)%nat with n by lia.
    destruct ((0 <? n)%nat && (n mod d =? 0)%nat) eqn:C.
    + apply andb_prop in C. destruct C as [C1 C2].
      apply Nat.ltb_lt in C1. apply Nat.eqb_eq in C2.
      pose proof (div_pred_multiple d n Hd C1 C2) as Hq.
      destruct (succ_pos_multiple d n Hd C1 C2) as [M0 M1].
      rewrite <- Hlen in M0, M1.
      rewrite !split_app. simpl split.
      rewrite <- app_assoc. simpl app.
      repeat split.
      * rewrite length_app. simpl. lia.
      * rewrite stripInserted_app, Hstrip, Nat.add_0_l.
        cbn [stripInserted]. rewrite M0, M1. reflexivity.
      * intros i Hi. destruct (Nat.eq_dec i n) as [->|Hne].
        -- rewrite (nth_error_app2 (split f)) by lia.
           rewrite (nth_error_app2 l) by (unfold n; lia).
           replace (n + n / d - List.length (split f))%nat with 1%nat by lia.
           replace (n - List.length l)%nat with 0%nat by (unfold n; lia).
           reflexivity.
        -- assert (i < n)%nat by lia.
           assert (i / d <= (n - 1) / d)%nat
             by (apply Nat.Div0.div_le_mono; lia).
           rewrite (nth_error_app1 (split f)) by lia.
           rewrite (nth_error_app1 l) by (unfold n in *; lia).
           now apply Hget.
      * intros k Hk Hkd.
        pose proof (Nat.div_mod_eq n d) as E. rewrite C2 in E.
        destruct (Nat.eq_dec (k * d) n) as [Hkn|Hkn].
        -- assert (k = (n / d)%nat) by nia.
           rewrite nth_error_app2 by lia.
           replace (k * d + k - 1 - List.length (split f))%nat with 0%nat by lia.
           reflexivity.
        -- assert (k * d < n)%nat by lia.
           assert (k < n / d)%nat by nia.
           rewrite nth_error_app1 by lia.
           now apply Hdash.
    + assert (Hc : n = 0%nat \/ n mod d <> 0%nat).
      { apply andb_false_iff in C. destruct C as [C|C].
        - apply Nat.ltb_ge in C. left; lia.
        - apply Nat.eqb_neq in C. now right. }
      pose proof (succ_pos_other d n Hd Hc) as M.
      rewrite <- Hlen in M. apply Nat.eqb_neq in M.
      assert (Hq : ((n - 1) / d = n / d)%nat).
      { destruct Hc as [->|Hc]; [reflexivity | now apply div_pred_other]. }
      rewrite split_app. simpl split.
      repeat split.
      * rewrite length_app. simpl. lia.
      * rewrite stripInserted_app, Hstrip, Nat.add_0_l.
        cbn [stripInserted]. rewrite M. reflexivity.
      * intros i Hi. destruct (Nat.eq_dec i n) as [->|Hne].
        -- rewrite (nth_error_app2 (split f)) by lia.
           rewrite (nth_error_app2 l) by (unfold n; lia).
           replace (n + n / d - List.length (split f))%nat with 0%nat by lia.
           replace (n - List.length l)%nat with 0%nat by (unfold n; lia).
           reflexivity.
        -- assert (i < n)%nat by lia.
           assert (i / d <= (n - 1) / d)%nat
             by (apply Nat.Div0.div_le_mono; lia).
           rewrite (nth_error_app1 (split f)) by lia.
           rewrite (nth_error_app1 l) by (unfold n in *; lia).
           now apply Hget.
      * intros k Hk Hkd.
        pose proof (Nat.div_mod_eq n d) as E.
        pose proof (Nat.mod_upper_bound n d ltac:(lia)) as B.
        assert (k * d <> n).
        { intros Hkn. destruct Hc as [Hc|Hc]; [nia|].
          apply Hc. rewrite <- Hkn. apply Nat.Div0.mod_mul. }
        assert (k * d < n)%nat by lia.
        assert (k <= n / d)%nat by nia.
        rewrite nth_error_app1 by lia.
        now apply Hdash.
Qed.

(** ** The binary logarithm *)

Lemma ln2_pos : (0 < ln 2)%R.
Proof. pose proof ln_lt_2. lra. Qed.

Lemma log2_2 : log2 2 = 1%R.
Proof. unfold log2. pose proof ln2_pos. field. lra. Qed.

Lemma log2_increasing (x y : R) : (0 < x < y)%R -> (log2 x < log2 y)%R.
Proof.
  intros [Hx Hxy]. unfold log2, Rdiv.
  apply Rmult_lt_compat_r.
  - apply Rinv_0_lt_compat, ln2_pos.
  - now apply ln_increasing.
Qed.

Lemma log2_pos (x : R) : (2 <= x)%R -> (1 <= log2 x)%R.
Proof.
  intros [H|<-].
  - rewrite <- log2_2. left. apply log2_increasing. lra.
  - rewrite log2_2. lra.
Qed.

Lemma INR_Z (n : nat) : INR n = IZR (Z.of_nat n).
Proof. apply INR_IZR_INZ. Qed.

Lemma times_log2_lt (len n k : nat) :
  (0 < n)%nat ->
  (Z.of_nat n ^ Z.of_nat len < 2 ^ Z.of_nat k)%Z ->
  (INR len * log2 (INR n) < INR k)%R.
Proof.
  intros Hn Hlt.
  assert (Hx : (0 < INR n)%R) by (apply lt_0_INR; lia).
  assert (Hp : (INR n ^ len < 2 ^ k)%R).
  { rewrite INR_Z, !pow_IZR. now apply IZR_lt. }
  assert (Hl : (ln (INR n ^ len) < ln (2 ^ k))%R).
  { apply ln_increasing; [apply pow_lt; exact Hx | exact Hp]. }
  rewrite !ln_pow in Hl by lra.
  unfold log2. pose proof ln2_pos as H2.
  apply Rmult_lt_reg_r with (ln 2); [exact H2|].
  replace (INR len * (ln (INR n) / ln 2) * ln 2)%R
    with (INR len * ln (INR n))%R by (field; lra).
  exact Hl.
Qed.

Lemma times_log2_gt (len n k : nat) :
  (0 < n)%nat ->
  (2 ^ Z.of_nat k < Z.of_nat n ^ Z.of_nat len)%Z ->
  (INR k < INR len * log2 (INR n))%R.
Proof.
  intros Hn Hlt.
  assert (Hx : (0 < INR n)%R) by (apply lt_0_INR; lia).
  assert (Hp : (2 ^ k < INR n ^ len)%R).
  { rewrite INR_Z, !pow_IZR. now apply IZR_lt. }
  assert (Hl : (ln (2 ^ k) < ln (INR n ^ len))%R).
  { apply ln_increasing; [apply pow_lt; lra | exact Hp]. }
  rewrite !ln_pow in Hl by lra.
  unfold log2. pose proof ln2_pos as H2.
  apply Rmult_lt_reg_r with (ln 2); [exact H2|].
  replace (INR len * (ln (INR n) / ln 2) * ln 2)%R
    with (INR len * ln (INR n))%R by (field; lra).
  exact Hl.
Qed.

(** ** The strength tiers *)

Lemma getPasswordStrength_cases (p : string) (e : R) :
  ((e < 28)%R /\ getPasswordStrength p e = 1%Z)
  \/ ((28 <= e < 35)%R /\ getPasswordStrength p e = 2%Z)
  \/ ((35 <= e < 59)%R /\ getPasswordStrength p e = 3%Z)
  \/ ((59 <= e < 127)%R /\ getPasswordStrength p e = 4%Z)
  \/ ((127 <= e)%R /\ getPasswordStrength p e = 5%Z).
Proof.
  unfold getPasswordStrength.
  destruct (Rlt_dec e 28); [left; auto|].
  destruct (Rlt_dec e 35); [right; left; split; [lra|auto]|].
  destruct (Rlt_dec e 59); [right; right; left; split; [lra|auto]|].
  destruct (Rlt_dec e 127); [right; right; right; left; split; [lra|auto]|].
  right; right; right; right; split; [lra|auto].
Qed.

(** C7: [getPasswordStrength] is a total function of the entropy alone, with
    values in 1..5, monotonic non-decreasing, and the entropies 27.999, 28,
    34.999, 35, 58.999, 59, 126.999 and 127 are of tiers 1, 2, 2, 3, 3, 4, 4
    and 5. *)
Theorem getPasswordStrength_monotone_boundaries :
  (forall p q e, getPasswordStrength p e = getPasswordStrength q e)
  /\ (forall p e, (1 <= getPasswordStrength p e <= 5)%Z)
  /\ (forall p e1 e2, (e1 <= e2)%R ->
        (getPasswordStrength p e1 <= getPasswordStrength p e2)%Z)
  /\ map (getPasswordStrength "")
         [27.999; 28; 34.999; 35; 58.999; 59; 126.999; 127]%R
     = [1; 2; 2; 3; 3; 4; 4; 5]%Z.
Proof.
  split; [reflexivity|]. split; [|split].
  - intros p e.
    destruct (getPasswordStrength_cases p e)
      as [[_ ->]|[[_ ->]|[[_ ->]|[[_ ->]|[_ ->]]]]]; lia.
  - intros p e1 e2 Hle.
    destruct (getPasswordStrength_cases p e1)
      as [[H1 ->]|[[H1 ->]|[[H1 ->]|[[H1 ->]|[H1 ->]]]]];
    destruct (getPasswordStrength_cases p e2)
      as [[H2 ->]|[[H2 ->]|[[H2 ->]|[[H2 ->]|[H2 ->]]]]];
    first [lia | lra].
  - cbn [map].
    repeat match goal with
    | |- context [getPasswordStrength "" ?e] =>
        let H := fresh in let E := fresh in
        destruct (getPasswordStrength_cases "" e)
          as [[H E]|[[H E]|[[H E]|[[H E]|[H E]]]]];
        try (exfalso; lra); rewrite E; clear H E
    end.
    reflexivity.
Qed.

(** The monotonicity of C7 used at two entropies that a boundary separates. *)
Lemma getPasswordStrength_monotone_witness :
  (27.999 <= 28)%R
  /\ (getPasswordStrength "" 27.999 <= getPasswordStrength "" 28)%Z.
Proof.
  split; [lra|].
  apply (proj1 (proj2 (proj2 getPasswordStrength_monotone_boundaries))).
  lra.
Defined.

(** ** Dash formatting *)

Lemma dashInterval_ge_2 (n : nat) : (8 < n -> 2 <= n / 4)%nat.
Proof.
  intros H. pose proof (Nat.div_mod_eq n 4).
  pose proof (Nat.mod_upper_bound n 4). lia.
Qed.

Lemma addDashes_length (o : PasswordOptions) (s : string) :
  String.length (addDashes o s)
  = (String.length s + dashCount o (String.length s))%nat.
Proof.
  unfold addDashes, dashCount.
  destruct (includeDashes o && (8 <? String.length s)%nat) eqn:C; [|lia].
  apply andb_prop in C. destruct C as [_ C]. apply Nat.ltb_lt in C.
  pose proof (dashInterval_ge_2 _ C) as Hd.
  destruct (dashLoop_inv (String.length s / 4) (split s) ltac:(lia))
    as [Hlen _].
  rewrite length_split in Hlen. now rewrite length_split in Hlen.
Qed.

Lemma stripInserted_incl (d : nat) (l : list ascii) :
  forall pos c, In c (stripInserted d pos l) -> In c l.
Proof.
  induction l as [|a l IH]; intros pos c; cbn [stripInserted]; [auto|].
  destruct (S pos mod S d =? 0)%nat; simpl; intros H.
  - right. eapply IH; eauto.
  - destruct H as [H|H]; [now left | right; eapply IH; eauto].
Qed.

Lemma addDashes_In (o : PasswordOptions) (s : string) (c : ascii) :
  In c (split s) -> In c (split (addDashes o s)).
Proof.
  unfold addDashes.
  destruct (includeDashes o && (8 <? String.length s)%nat) eqn:C; [|auto].
  apply andb_prop in C. destruct C as [_ C]. apply Nat.ltb_lt in C.
  pose proof (dashInterval_ge_2 _ C) as Hd.
  destruct (dashLoop_inv (String.length s / 4) (split s) ltac:(lia))
    as [_ [Hstrip _]].
  intros H. rewrite <- Hstrip in H.
  eapply stripInserted_incl; eauto.
Qed.

(** C8: with [includeDashes] set and a shuffled secret of more than 8
    characters, the final password carries a ['-'] after every
    [floor(length / 4)] characters of the shuffled secret (the length being
    that of the shuffled secret), never at index 0, every other character is
    the corresponding character of the shuffled secret, and deleting the
    inserted dashes gives the shuffled secret back, so a string of the
    length it had. *)
Theorem dashes_every_interval
    (sort : (ascii -> ascii -> Rand Z) -> list ascii -> Rand (list ascii))
    (o : PasswordOptions) (src : Uint32Source) :
  includeDashes o = true ->
  (8 < String.length (shuffledSecret sort o src))%nat ->
  let pre := shuffledSecret sort o src in
  let secret := password (evalRand (generatePassword sort TPassword o) src) in
  let d := (String.length pre / 4)%nat in
  (2 <= d)%nat
  /\ String.length secret
     = (String.length pre + (String.length pre - 1) / d)%nat
  /\ (forall k, (1 <= k)%nat -> (k * d < String.length pre)%nat ->
        String.get (k * d + k - 1) secret = Some "-"%char)
  /\ (forall i, (i < String.length pre)%nat ->
        String.get (i + i / d) secret = String.get i pre)
  /\ String.get 0 secret = String.get 0 pre
  /\ join (stripInserted d 0 (split secret)) = pre
  /\ String.length (join (stripInserted d 0 (split secret)))
     = String.length pre.
Proof.
  intros Hdash Hlen pre secret d.
  assert (Hne : generateCharacterSet o <> "").
  { intros E. unfold shuffledSecret in Hlen. rewrite E in Hlen.
    simpl in Hlen. lia. }
  assert (Hsecret : secret = dashLoop d 0 (split pre) "").
  { unfold secret, generatePassword.
    rewrite generatePlainPassword_run by exact Hne.
    cbn [password]. unfold addDashes. rewrite Hdash.
    apply Nat.ltb_lt in Hlen. rewrite Hlen. reflexivity. }
  pose proof (dashInterval_ge_2 _ Hlen) as Hd. fold pre in Hd. fold d in Hd.
  destruct (dashLoop_inv d (split pre) ltac:(lia))
    as [Hl [Hstrip [Hget Hdashes]]].
  rewrite <- Hsecret, length_split in *.
  assert (Hrestore : join (stripInserted d 0 (split secret)) = pre)
    by (rewrite Hstrip; apply join_split).
  repeat split.
  - exact Hd.
  - rewrite Hl, !length_split. reflexivity.
  - intros k Hk Hkd. rewrite get_nth_error. now apply Hdashes.
  - intros i Hi. rewrite !get_nth_error. now apply Hget.
  - rewrite !get_nth_error.
    specialize (Hget 0%nat ltac:(fold pre in Hlen; lia)).
    now rewrite Nat.Div0.div_0_l in Hget.
  - exact Hrestore.
  - now rewrite Hrestore.
Qed.

(** ** Entropy of a generated password *)

Lemma charset_size_ge_8 (o : PasswordOptions) :
  anyClass o = true -> (8 <= String.length (generateCharacterSet o))%nat.
Proof.
  destruct o as [len lo up nu sy ea da]. unfold anyClass; simpl.
  destruct lo, up, nu, sy, ea; simpl; intros H; try discriminate H;
    vm_compute; repeat constructor.
Qed.

Lemma bits_per_char_pos (o : PasswordOptions) :
  anyClass o = true ->
  (1 <= log2 (INR (String.length (generateCharacterSet o))))%R.
Proof.
  intros H. apply log2_pos.
  pose proof (charset_size_ge_8 o H) as H8.
  apply le_INR in H8. simpl INR in H8. lra.
Qed.

Lemma plain_password_run
    (sort : (ascii -> ascii -> Rand Z) -> list ascii -> Rand (list ascii))
    (o : PasswordOptions) (src : Uint32Source) :
  anyClass o = true ->
  let r := evalRand (generatePassword sort TPassword o) src in
  password r = addDashes o (shuffledSecret sort o src)
  /\ entropy r = calculateEntropy (password r) (generateCharacterSet o)
  /\ strength r = getPasswordStrength (password r) (entropy r).
Proof.
  intros Hany r. unfold r, generatePassword.
  rewrite generatePlainPassword_run by now apply charset_nonempty.
  cbn. auto.
Qed.

Lemma dashCount_pos (o : PasswordOptions) (n : nat) :
  includeDashes o = true -> (8 < n)%nat -> (1 <= dashCount o n)%nat.
Proof.
  intros Hd Hn. unfold dashCount. rewrite Hd.
  apply Nat.ltb_lt in Hn as Hb. rewrite Hb. cbn [andb].
  pose proof (dashInterval_ge_2 n Hn).
  pose proof (Nat.div_mod_eq n 4). pose proof (Nat.mod_upper_bound n 4).
  apply Nat.div_le_lower_bound; lia.
Qed.

Lemma dashCount_zero (o : PasswordOptions) (n : nat) :
  includeDashes o = false \/ (n <= 8)%nat -> dashCount o n = 0%nat.
Proof.
  unfold dashCount. intros [->|H]; [reflexivity|].
  apply Nat.ltb_ge in H. rewrite H. now rewrite andb_false_r.
Qed.

(** C2, as the code has it: with at least one class selected, the entropy of
    a generated password is the length of the final password, inserted
    dashes included, times [log2] of the size of the character set; it is
    the length before dash insertion times that logarithm exactly when no
    dash is inserted, and strictly more when dashes are inserted. *)
Theorem entropy_counts_final_length
    (sort : (ascii -> ascii -> Rand Z) -> list ascii -> Rand (list ascii))
    (o : PasswordOptions) (src : Uint32Source) :
  anyClass o = true ->
  let r := evalRand (generatePassword sort TPassword o) src in
  let pre := shuffledSecret sort o src in
  let bits := log2 (INR (String.length (generateCharacterSet o))) in
  entropy r = (INR (String.length (password r)) * bits)%R
  /\ String.length (password r)
     = (String.length pre + dashCount o (String.length pre))%nat
  /\ (includeDashes o = false \/ (String.length pre <= 8)%nat ->
      entropy r = (INR (String.length pre) * bits)%R)
  /\ (includeDashes o = true -> (8 < String.length pre)%nat ->
      (INR (String.length pre) * bits < entropy r)%R).
Proof.
  intros Hany r pre bits.
  destruct (plain_password_run sort o src Hany) as [Hp [He _]].
  fold r in Hp, He. fold pre in Hp.
  assert (Hlen : String.length (password r)
                 = (String.length pre + dashCount o (String.length pre))%nat)
    by (rewrite Hp; apply addDashes_length).
  assert (Hent : entropy r = (INR (String.length (password r)) * bits)%R)
    by (rewrite He; reflexivity).
  pose proof (bits_per_char_pos o Hany) as Hbits. fold bits in Hbits.
  repeat split.
  - exact Hent.
  - exact Hlen.
  - intros Hno. rewrite Hent, Hlen, (dashCount_zero o _ Hno), Nat.add_0_r.
    reflexivity.
  - intros Hd H8. rewrite Hent, Hlen, plus_INR.
    pose proof (dashCount_pos o _ Hd H8) as Hc.
    apply le_INR in Hc. simpl INR in Hc. nra.
Qed.

(** A run with dashes for C2: lowercase only, 16 characters. *)
Lemma entropy_counts_final_length_witness :
  anyClass dashedLowercaseOptions = true
  /\ String.length
       (password (evalRand
          (generatePassword insertionSort TPassword dashedLowercaseOptions)
          countingSource))
     = (String.length
          (shuffledSecret insertionSort dashedLowercaseOptions countingSource)
        + dashCount dashedLowercaseOptions
            (String.length
               (shuffledSecret insertionSort dashedLowercaseOptions
                  countingSource)))%nat.
Proof.
  split; [reflexivity|].
  apply (entropy_counts_final_length insertionSort dashedLowercaseOptions
           countingSource).
  reflexivity.
Defined.

(** The entropy of C2 computed without the dashes is not what the code
    returns: 16 lowercase letters formatted with 3 dashes are scored as 19
    characters of a 26-character set. *)
Lemma entropy_excludes_dashes_counterexample :
  let o := dashedLowercaseOptions in
  let r := evalRand (generatePassword insertionSort TPassword o)
                    countingSource in
  anyClass o = true
  /\ shuffledSecret insertionSort o countingSource = "drkfytmhavojcxqe"
  /\ password r = "drkf-ytmh-avoj-cxqe"
  /\ String.length (generateCharacterSet o) = 26%nat
  /\ entropy r = (19 * log2 26)%R
  /\ entropy r
     <> (INR (String.length (shuffledSecret insertionSort o countingSource))
         * log2 (INR (String.length (generateCharacterSet o))))%R.
Proof.
  intros o r.
  destruct (plain_password_run insertionSort o countingSource eq_refl)
    as [_ [He _]]. fold r in He.
  assert (P : password r = "drkf-ytmh-avoj-cxqe") by (vm_compute; reflexivity).
  assert (S : shuffledSecret insertionSort o countingSource
              = "drkfytmhavojcxqe") by (vm_compute; reflexivity).
  assert (C : String.length (generateCharacterSet o) = 26%nat)
    by (vm_compute; reflexivity).
  assert (E : entropy r = (19 * log2 26)%R).
  { rewrite He. unfold calculateEntropy. rewrite P, C.
    rewrite !INR_Z. reflexivity. }
  repeat split; try assumption.
  rewrite E, S, C. cbn [String.length]. rewrite !INR_Z. simpl Z.of_nat.
  assert (1 <= log2 26)%R by (apply log2_pos; lra).
  lra.
Qed.

(** ** The reference sort permutes its input *)

Lemma insertBy_permutes (cmp : ascii -> ascii -> Rand Z) (x : ascii)
    (l : list ascii) :
  forall src, Permutation (x :: l) (fst (insertBy cmp x l src)).
Proof.
  induction l as [|y l IH]; intros src; cbn [insertBy].
  - apply Permutation_refl.
  - rewrite bind_run. destruct (fst (cmp x y src) <=? 0)%Z.
    + apply Permutation_refl.
    + rewrite bind_run. cbn [ret fst].
      eapply perm_trans; [apply perm_swap|].
      apply perm_skip, IH.
Qed.

Lemma insertionSort_permutes (cmp : ascii -> ascii -> Rand Z)
    (l : list ascii) :
  forall src, Permutation l (fst (insertionSort cmp l src)).
Proof.
  induction l as [|x l IH]; intros src; cbn [insertionSort].
  - apply Permutation_refl.
  - rewrite bind_run.
    eapply perm_trans; [apply perm_skip, (IH src)|].
    apply insertBy_permutes.
Qed.

(** ** Properties that hold for every engine sort that permutes *)

Lemma Forall2_pick_r {A B} (R : A -> B -> Prop) (l : list A) (m : list B) :
  Forall2 R l m -> forall y, In y m -> exists x, In x l /\ R x y.
Proof.
  induction 1 as [|x y l m Hxy _ IH]; intros z Hz; [inversion Hz|].
  destruct Hz as [<-|Hz].
  - exists x; split; [now left | exact Hxy].
  - destruct (IH z Hz) as [x' [Hin Hr]]. exists x'; split; [now right|exact Hr].
Qed.

Lemma removeDashes_In (s : string) (c : ascii) :
  In c (split s) -> c <> "-"%char -> In c (split (removeDashes s)).
Proof.
  intros Hin Hne. unfold removeDashes. rewrite split_join.
  apply filter_In. split; [exact Hin|].
  destruct (Ascii.eqb_spec c "-"); [contradiction | reflexivity].
Qed.

Lemma required_not_dash (alpha : string) (c : ascii) :
  In alpha [lower; upper; numbers; requiredSymbols] ->
  In c (split alpha) -> c <> "-"%char.
Proof.
  intros Ha Hc E. subst c.
  assert (F : forallb (fun a => negb (includes a "-"))
                [lower; upper; numbers; requiredSymbols] = true)
    by reflexivity.
  rewrite forallb_forall in F. specialize (F alpha Ha).
  apply negb_true_iff in F. unfold includes in F.
  assert (T : existsb (Ascii.eqb "-") (split alpha) = true).
  { apply existsb_exists. exists "-"%char. split; [exact Hc|].
    apply Ascii.eqb_refl. }
  congruence.
Qed.

Lemma requiredAlphabets_incl (o : PasswordOptions) (alpha : string) :
  In alpha (requiredAlphabets o) ->
  In alpha [lower; upper; numbers; requiredSymbols].
Proof.
  unfold requiredAlphabets.
  destruct (includeLowercase o), (includeUppercase o), (includeNumbers o),
    (includeSymbols o); simpl; intuition.
Qed.

Lemma requiredSymbols_incl (c : ascii) :
  In c (split requiredSymbols) -> In c (split symbols).
Proof.
  intros H.
  assert (F : forallb (includes symbols) (split requiredSymbols) = true)
    by reflexivity.
  rewrite forallb_forall in F. specialize (F c H).
  unfold includes in F. apply existsb_exists in F.
  destruct F as [a [Ha E]]. apply Ascii.eqb_eq in E. now subst a.
Qed.

Section Properties.

Variable sort : (ascii -> ascii -> Rand Z) -> list ascii -> Rand (list ascii).

(** The engine's sort rearranges the array: whatever the comparator
    answers, the result holds the same elements. *)
Hypothesis sort_permutes :
  forall cmp l src, Permutation l (fst (sort cmp l src)).

Lemma shuffledSecret_permutes (o : PasswordOptions) (src : Uint32Source) :
  anyClass o = true ->
  exists req fill,
    Permutation (req ++ fill) (split (shuffledSecret sort o src))
    /\ pickEach src 0 (requiredAlphabets o) = map Some req
    /\ Forall2 (fun c alpha => In c (split alpha)) req (requiredAlphabets o)
    /\ List.length fill
       = Z.to_nat (length o - Z.of_nat (List.length req))
    /\ Forall (fun c => In c (split (generateCharacterSet o))) fill.
Proof.
  intros Hany. pose proof (charset_nonempty o Hany) as Hne.
  destruct (assemblePassword_run o (generateCharacterSet o) src Hne)
    as [req [fill [Ea [Ep [F2 [L F]]]]]].
  exists req, fill. repeat split; try assumption.
  unfold shuffledSecret.
  destruct (String.eqb_spec (generateCharacterSet o) ""); [contradiction|].
  unfold evalRand, shuffle. rewrite !bind_run. cbn [ret fst].
  rewrite split_join, Ea.
  rewrite <- (split_join (req ++ fill)) at 1.
  apply sort_permutes.
Qed.

Lemma shuffledSecret_length (o : PasswordOptions) (src : Uint32Source) :
  anyClass o = true ->
  String.length (shuffledSecret sort o src)
  = Nat.max (List.length (requiredAlphabets o)) (Z.to_nat (length o)).
Proof.
  intros Hany.
  destruct (shuffledSecret_permutes o src Hany)
    as [req [fill [P [_ [F2 [L _]]]]]].
  apply Permutation_length in P. rewrite length_app, length_split in P.
  apply Forall2_length in F2. lia.
Qed.

Lemma required_char_present (o : PasswordOptions) (src : Uint32Source)
    (alpha : string) :
  anyClass o = true ->
  In alpha (requiredAlphabets o) ->
  exists c,
    In c (split alpha) /\ c <> "-"%char
    /\ In c (split (shuffledSecret sort o src)).
Proof.
  intros Hany Ha.
  destruct (shuffledSecret_permutes o src Hany)
    as [req [fill [P [_ [F2 _]]]]].
  destruct (Forall2_pick_r _ _ _ F2 alpha Ha) as [c [Hc Hin]].
  exists c. repeat split.
  - exact Hin.
  - eapply required_not_dash; [apply (requiredAlphabets_incl o)|]; eauto.
  - eapply Permutation_in; [exact P|]. apply in_or_app. now left.
Qed.

Lemma class_present (o : PasswordOptions) (src : Uint32Source)
    (alpha : string) :
  anyClass o = true ->
  In alpha (requiredAlphabets o) ->
  containsFrom alpha
    (removeDashes
       (password (evalRand (generatePassword sort TPassword o) src))).
Proof.
  intros Hany Ha.
  destruct (required_char_present o src alpha Hany Ha) as [c [Hc [Hd Hs]]].
  destruct (plain_password_run sort o src Hany) as [Hp _].
  exists c. split; [exact Hc|].
  apply removeDashes_In; [|exact Hd].
  rewrite Hp. now apply addDashes_In.
Qed.

(** C5: with at least one class selected, the generated password is not
    empty and, once every ['-'] is removed from it, still holds a
    character of the seed alphabet of each selected class, whatever the
    random stream delivers. *)
Theorem every_selected_class_present (o : PasswordOptions)
    (src : Uint32Source) :
  anyClass o = true ->
  let secret :=
    password (evalRand (generatePassword sort TPassword o) src) in
  secret <> ""
  /\ (includeLowercase o = true ->
      containsFrom lower (removeDashes secret))
  /\ (includeUppercase o = true ->
      containsFrom upper (removeDashes secret))
  /\ (includeNumbers o = true ->
      containsFrom numbers (removeDashes secret))
  /\ (includeSymbols o = true ->
      containsFrom symbols (removeDashes secret)).
Proof.
  intros Hany secret. unfold secret. split; [|repeat split].
  - assert (exists alpha, In alpha (requiredAlphabets o)) as [alpha Ha].
    { unfold anyClass in Hany. unfold requiredAlphabets.
      destruct (includeLowercase o); [eexists; now left|].
      destruct (includeUppercase o); [eexists; now left|].
      destruct (includeNumbers o); [eexists; now left|].
      destruct (includeSymbols o); [eexists; now left|discriminate]. }
    destruct (required_char_present o src alpha Hany Ha) as [c [_ [_ Hs]]].
    destruct (plain_password_run sort o src Hany) as [Hp _].
    apply (addDashes_In o) in Hs. rewrite <- Hp in Hs.
    intros E. rewrite E in Hs. inversion Hs.
  - intros H. apply class_present; [exact Hany|].
    unfold requiredAlphabets. rewrite H. now left.
  - intros H. apply class_present; [exact Hany|].
    unfold requiredAlphabets. rewrite H.
    apply in_or_app. right. now left.
  - intros H. apply class_present; [exact Hany|].
    unfold requiredAlphabets. rewrite H.
    apply in_or_app. right. apply in_or_app. right. now left.
  - intros H.
    destruct (class_present o src requiredSymbols Hany) as [c [Hc Hs]].
    { unfold requiredAlphabets. rewrite H.
      apply in_or_app. right. apply in_or_app. right.
      apply in_or_app. right. now left. }
    exists c. split; [now apply requiredSymbols_incl | exact Hs].
Qed.

(** C3, as the code has it: for the default options (length 16, the four
    classes, no ambiguity filter, no dashes) the password has 16
    characters, the character set has 26 + 26 + 10 + 26 = 88 characters,
    the entropy is [16 * log2 88], a value between 103 and 104, and the
    strength is 4. *)
Theorem default_options_scenario (src : Uint32Source) :
  let r := evalRand (generatePassword sort TPassword defaultOptions) src in
  String.length (password r) = 16%nat
  /\ String.length (generateCharacterSet defaultOptions)
     = (26 + 26 + 10 + 26)%nat
  /\ String.length (generateCharacterSet defaultOptions) = 88%nat
  /\ entropy r = (16 * log2 88)%R
  /\ (103 < entropy r < 104)%R
  /\ strength r = 4%Z.
Proof.
  intros r.
  destruct (plain_password_run sort defaultOptions src eq_refl)
    as [Hp [He Hs]]. fold r in Hp, He, Hs.
  assert (L : String.length (password r) = 16%nat).
  { rewrite Hp. cbn [addDashes defaultOptions includeDashes andb].
    now rewrite shuffledSecret_length. }
  assert (C : String.length (generateCharacterSet defaultOptions) = 88%nat)
    by reflexivity.
  assert (E : entropy r = (INR 16 * log2 (INR 88))%R).
  { rewrite He. unfold calculateEntropy. now rewrite L, C. }
  assert (B : (103 < entropy r < 104)%R).
  { rewrite E. split.
    - pose proof (times_log2_gt 16 88 103 ltac:(lia) eq_refl) as G.
      rewrite (INR_Z 103) in G. exact G.
    - pose proof (times_log2_lt 16 88 104 ltac:(lia) eq_refl) as G.
      rewrite (INR_Z 104) in G. exact G. }
  repeat split; try assumption; try lra.
  - rewrite E, !INR_Z. reflexivity.
  - rewrite Hs.
    destruct (getPasswordStrength_cases (password r) (entropy r))
      as [[H _]|[[H _]|[[H _]|[[_ T]|[H _]]]]]; try lra; exact T.
Qed.

End Properties.

(** A run for C5: the default options with the reference sort. *)
Lemma every_selected_class_present_witness :
  anyClass defaultOptions = true
  /\ password (evalRand
       (generatePassword insertionSort TPassword defaultOptions)
       countingSource) <> "".
Proof.
  split; [reflexivity|].
  apply (every_selected_class_present insertionSort insertionSort_permutes
           defaultOptions countingSource).
  reflexivity.
Defined.

(** A run for C3 with the reference sort. *)
Lemma default_options_scenario_witness :
  (forall cmp l src, Permutation l (fst (insertionSort cmp l src)))
  /\ strength (evalRand
       (generatePassword insertionSort TPassword defaultOptions)
       countingSource) = 4%Z.
Proof.
  split; [exact insertionSort_permutes|].
  apply (default_options_scenario insertionSort insertionSort_permutes
           countingSource).
Defined.

(** The scenario of C3 as it is worded fails: the symbol alphabet of
    [generateCharacterSet] has 26 characters, so the character set has 88
    characters, not 89, and the entropy is not [16 * log2 89]. *)
Lemma default_charset_89_counterexample :
  let r := evalRand (generatePassword insertionSort TPassword defaultOptions)
                    countingSource in
  String.length symbols = 26%nat
  /\ String.length (generateCharacterSet defaultOptions) = 88%nat
  /\ entropy r <> (16 * log2 89)%R
  /\ ~ (String.length (password r) = 16%nat
        /\ String.length (generateCharacterSet defaultOptions) = 89%nat
        /\ entropy r = (16 * log2 89)%R
        /\ strength r = 4%Z).
Proof.
  intros r.
  assert (C : String.length (generateCharacterSet defaultOptions) = 88%nat)
    by reflexivity.
  assert (E : entropy r <> (16 * log2 89)%R).
  { destruct (plain_password_run insertionSort defaultOptions countingSource
                eq_refl) as [_ [He _]]. fold r in He.
    assert (L : String.length (password r) = 16%nat)
      by (vm_compute; reflexivity).
    rewrite He. unfold calculateEntropy. rewrite L, C, !INR_Z.
    simpl Z.of_nat.
    assert (log2 88 < log2 89)%R by (apply log2_increasing; lra).
    lra. }
  repeat split; try assumption; try reflexivity.
  intros [_ [_ [H _]]]. exact (E H).
Qed.

(** ** The passphrase branch *)

Lemma passphraseToken_run (src : Uint32Source) :
  exists w k,
    passphraseToken src = (w ++ numberToString k, fun i => src (2 + i)%nat)
    /\ In w WORD_LIST /\ (k < 100)%N.
Proof.
  unfold passphraseToken.
  rewrite bind_run, getSecureRandom_run. cbn [fst snd].
  rewrite bind_run, getSecureRandom_run. cbn [fst snd ret].
  set (i := drawn src 0 (N.of_nat (List.length WORD_LIST))).
  assert (Hi : (i < N.of_nat (List.length WORD_LIST))%N)
    by (apply drawn_lt; simpl; lia).
  destruct (nth_error WORD_LIST (N.to_nat i)) as [w|] eqn:E.
  - exists w, (drawn (fun k => src (S k)) 0 100). repeat split.
    + eapply nth_error_In; eauto.
    + apply drawn_lt. lia.
  - apply nth_error_None in E. lia.
Qed.

Lemma arrayFrom_tokens (n : nat) :
  forall src, exists toks : list (string * N),
    fst (arrayFrom n passphraseToken src)
    = map (fun t => fst t ++ numberToString (snd t)) toks
    /\ List.length toks = n
    /\ Forall (fun t => In (fst t) WORD_LIST /\ (snd t < 100)%N) toks.
Proof.
  induction n as [|n IH]; intros src; cbn [arrayFrom].
  - exists []. repeat split; constructor.
  - destruct (passphraseToken_run src) as [w [k [E [Hw Hk]]]].
    rewrite bind_run, E. cbn [fst snd].
    destruct (IH (fun i => src (2 + i)%nat)) as [toks [Et [L F]]].
    rewrite bind_run, Et. cbn [ret fst].
    exists ((w, k) :: toks). repeat split.
    + cbn [List.length]. now rewrite L.
    + constructor; [split; assumption | exact F].
Qed.

Lemma generatePassphrase_run (o : PasswordOptions) (src : Uint32Source) :
  let passphrase :=
    joinWith "-"
      (fst (arrayFrom (Z.to_nat (Z.max 4 (Z.min 8 (length o / 4))))
              passphraseToken src)) in
  evalRand (generatePassphrase o) src
  = {| password := passphrase;
       strength := getPasswordStrength passphrase
                     (calculateEntropy passphrase "62");
       entropy := calculateEntropy passphrase "62";
       type := TPassphrase |}.
Proof.
  unfold generatePassphrase, evalRand. rewrite bind_run. reflexivity.
Qed.

Lemma calculateEntropy_62 (s : string) :
  calculateEntropy s "62" = INR (String.length s).
Proof.
  unfold calculateEntropy. cbn [String.length].
  rewrite (INR_Z 2). simpl Z.of_nat. rewrite log2_2. lra.
Qed.

(** C1 on the code: in passphrase mode the entropy returned is the length of
    the passphrase times [log2] of the length of the string ["62"], that is
    the length of the passphrase itself; for the default options and a
    stream of zeros the passphrase has 39 characters and the entropy is 39
    (strength 3), not [39 * log2 62], which is more than 232 (strength 5). *)
Theorem passphrase_entropy_is_length :
  (forall sort o src,
     let r := evalRand (generatePassword sort TPassphrase o) src in
     entropy r
     = (INR (String.length (password r)) * log2 (INR (String.length "62")))%R
     /\ entropy r = INR (String.length (password r)))
  /\ (let r := evalRand
                 (generatePassword insertionSort TPassphrase defaultOptions)
                 (constSource 0) in
      password r = "Mountain0-Mountain0-Mountain0-Mountain0"
      /\ entropy r = 39%R
      /\ strength r = 3%Z
      /\ (232 < INR (String.length (password r)) * log2 62)%R
      /\ entropy r <> (INR (String.length (password r)) * log2 62)%R
      /\ getPasswordStrength (password r)
           (INR (String.length (password r)) * log2 62) = 5%Z).
Proof.
  split.
  - intros sort o src r. unfold r, generatePassword.
    rewrite generatePassphrase_run. cbn [entropy password].
    split; [reflexivity | apply calculateEntropy_62].
  - intros r.
    assert (P : password r = "Mountain0-Mountain0-Mountain0-Mountain0")
      by (vm_compute; reflexivity).
    assert (E : entropy r = 39%R).
    { unfold r, generatePassword. rewrite generatePassphrase_run.
      cbn [entropy]. rewrite calculateEntropy_62.
      fold (generatePassphrase defaultOptions).
      match goal with |- INR (String.length ?s) = _ =>
        replace s with (password r) by (vm_compute; reflexivity) end.
      rewrite P. cbn [String.length]. rewrite INR_Z. reflexivity. }
    assert (S : strength r = 3%Z).
    { unfold r, generatePassword. rewrite generatePassphrase_run.
      cbn [strength]. fold (generatePassphrase defaultOptions).
      set (s := joinWith _ _).
      destruct (getPasswordStrength_cases s (calculateEntropy s "62"))
        as [[H T]|[[H T]|[[H T]|[[H T]|[H T]]]]];
        rewrite calculateEntropy_62 in H;
        replace s with (password r) in H by (vm_compute; reflexivity);
        rewrite P in H; cbn [String.length] in H;
        rewrite INR_Z in H; simpl Z.of_nat in H; try lra; exact T. }
    assert (B : (232 < INR (String.length (password r)) * log2 62)%R).
    { rewrite P. cbn [String.length].
      pose proof (times_log2_gt 39 62 232 ltac:(lia) eq_refl) as G.
      rewrite (INR_Z 232), (INR_Z 62) in G. exact G. }
    repeat split; try assumption.
    + rewrite E. lra.
    + destruct (getPasswordStrength_cases (password r)
                  (INR (String.length (password r)) * log2 62))
        as [[H _]|[[H _]|[[H _]|[[H _]|[_ T]]]]]; try lra; exact T.
Qed.

Lemma clamp_max_min (x : Z) : Z.max 4 (Z.min 8 x) = clamp x 4 8.
Proof.
  unfold clamp.
  destruct (Z.ltb_spec x 4); [lia|].
  destruct (Z.ltb_spec 8 x); lia.
Qed.

Lemma countChar_append (c : ascii) (s t : string) :
  countChar c (s ++ t) = (countChar c s + countChar c t)%nat.
Proof.
  unfold countChar. now rewrite split_app, filter_app, length_app.
Qed.

Lemma countChar_joinWith (toks : list string) :
  Forall (fun t => countChar "-" t = 0%nat) toks ->
  countChar "-" (joinWith "-" toks) = (List.length toks - 1)%nat.
Proof.
  unfold joinWith.
  induction 1 as [|t toks Ht F IH]; [reflexivity|].
  destruct toks as [|u toks].
  - cbn [String.concat List.length]. rewrite Ht. reflexivity.
  - change (String.concat "-" (t :: u :: toks))
      with (t ++ "-" ++ String.concat "-" (u :: toks)).
    rewrite !countChar_append, Ht, IH.
    change (countChar "-" "-") with 1%nat. cbn [List.length]. lia.
Qed.

Lemma word_no_dash (w : string) : In w WORD_LIST -> countChar "-" w = 0%nat.
Proof.
  intros H.
  assert (F : forallb (fun w => (countChar "-" w =? 0)%nat) WORD_LIST = true)
    by reflexivity.
  rewrite forallb_forall in F. now apply Nat.eqb_eq, F.
Qed.

Lemma number_no_dash (k : N) :
  (k < 100)%N -> countChar "-" (numberToString k) = 0%nat.
Proof.
  intros H.
  assert (F : forallb (fun i => (countChar "-" (numberToString (N.of_nat i))
                                 =? 0)%nat) (seq 0 100) = true)
    by (vm_compute; reflexivity).
  rewrite forallb_forall in F.
  specialize (F (N.to_nat k)). rewrite N2Nat.id in F.
  apply Nat.eqb_eq, F, in_seq. lia.
Qed.

(** C9: in passphrase mode the number of tokens is
    [clamp(floor(length / 4), 4, 8)], so between 4 and 8; every token is a
    word of [WORD_LIST] directly followed by the decimal digits of a number
    below 100; the tokens are joined by one ['-'] each, which are the only
    dashes of the passphrase; a length of 16 gives 4 tokens and 3 dashes. *)
Theorem passphrase_structure
    (sort : (ascii -> ascii -> Rand Z) -> list ascii -> Rand (list ascii))
    (o : PasswordOptions) (src : Uint32Source) :
  let r := evalRand (generatePassword sort TPassphrase o) src in
  let wordCount := clamp (length o / 4) 4 8 in
  (4 <= wordCount <= 8)%Z
  /\ (exists toks : list (string * N),
        Z.of_nat (List.length toks) = wordCount
        /\ Forall (fun t => In (fst t) WORD_LIST /\ (snd t < 100)%N) toks
        /\ password r
           = joinWith "-"
               (map (fun t => fst t ++ numberToString (snd t)) toks))
  /\ Z.of_nat (countChar "-" (password r)) = (wordCount - 1)%Z
  /\ (length o = 16%Z ->
      wordCount = 4%Z /\ countChar "-" (password r) = 3%nat).
Proof.
  intros r wordCount.
  assert (Hw : (4 <= wordCount <= 8)%Z).
  { unfold wordCount. rewrite <- clamp_max_min. lia. }
  destruct (arrayFrom_tokens (Z.to_nat wordCount) src) as [toks [E [L F]]].
  assert (P : password r
              = joinWith "-"
                  (map (fun t => fst t ++ numberToString (snd t)) toks)).
  { unfold r, generatePassword. rewrite generatePassphrase_run.
    cbn [password]. rewrite clamp_max_min. fold wordCount. now rewrite E. }
  assert (D : Z.of_nat (countChar "-" (password r)) = (wordCount - 1)%Z).
  { rewrite P, countChar_joinWith.
    - rewrite length_map, L. lia.
    - apply Forall_map. eapply Forall_impl; [|exact F].
      intros [w k] [Hin Hk]. cbn [fst snd] in *.
      now rewrite countChar_append, word_no_dash, number_no_dash. }
  repeat split; try lia.
  - exists toks. repeat split; [lia | exact F | exact P].
  - unfold wordCount. rewrite H. reflexivity.
  - assert (wordCount = 4%Z) by (unfold wordCount; rewrite H; reflexivity).
    lia.
Qed.

(** The length-16 case of C9 on the default options. *)
Lemma passphrase_structure_witness :
  length defaultOptions = 16%Z
  /\ countChar "-"
       (password (evalRand
          (generatePassword insertionSort TPassphrase defaultOptions)
          countingSource)) = 3%nat.
Proof.
  split; [reflexivity|].
  apply (passphrase_structure insertionSort defaultOptions countingSource).
  reflexivity.
Defined.

(** C10: in passphrase mode two option records of the same [length] give,
    on the same random stream, the same password, entropy and strength (and
    leave the same stream), whatever their six flags and whatever the engine
    sort. *)
Theorem passphrase_depends_on_length_only
    (sort sort' : (ascii -> ascii -> Rand Z) -> list ascii -> Rand (list ascii))
    (o1 o2 : PasswordOptions) (src : Uint32Source) :
  length o1 = length o2 ->
  generatePassword sort TPassphrase o1 src
  = generatePassword sort' TPassphrase o2 src
  /\ password (evalRand (generatePassword sort TPassphrase o1) src)
     = password (evalRand (generatePassword sort' TPassphrase o2) src)
  /\ entropy (evalRand (generatePassword sort TPassphrase o1) src)
     = entropy (evalRand (generatePassword sort' TPassphrase o2) src)
  /\ strength (evalRand (generatePassword sort TPassphrase o1) src)
     = strength (evalRand (generatePassword sort' TPassphrase o2) src).
Proof.
  intros H.
  assert (E : generatePassword sort TPassphrase o1 src
              = generatePassword sort' TPassphrase o2 src).
  { unfold generatePassword, generatePassphrase. now rewrite H. }
  unfold evalRand. rewrite E. auto.
Qed.

(** Two records for C10 that differ in every flag. *)
Lemma passphrase_depends_on_length_only_witness :
  length defaultOptions = length noClassOptions
  /\ generatePassword insertionSort TPassphrase defaultOptions countingSource
     = generatePassword insertionSort TPassphrase noClassOptions
         countingSource.
Proof.
  split; [reflexivity|].
  apply (passphrase_depends_on_length_only insertionSort insertionSort
           defaultOptions noClassOptions countingSource).
  reflexivity.
Defined.

(** C6: when the four class flags are false, the password branch returns
    the empty password with strength 0 and entropy 0, as an ordinary result,
    and draws nothing from the random stream. *)
Theorem no_class_zero_result
    (sort : (ascii -> ascii -> Rand Z) -> list ascii -> Rand (list ascii))
    (o : PasswordOptions) (src : Uint32Source) :
  includeLowercase o = false ->
  includeUppercase o = false ->
  includeNumbers o = false ->
  includeSymbols o = false ->
  generatePassword sort TPassword o src
  = ({| password := ""; strength := 0; entropy := 0; type := TPassword |},
     src).
Proof.
  intros H1 H2 H3 H4.
  assert (Hc : generateCharacterSet o = "").
  { apply charset_empty. unfold anyClass. now rewrite H1, H2, H3, H4. }
  unfold generatePassword, generatePlainPassword. rewrite Hc. reflexivity.
Qed.

(** A run for C6. *)
Lemma no_class_zero_result_witness :
  includeLowercase noClassOptions = false
  /\ includeUppercase noClassOptions = false
  /\ includeNumbers noClassOptions = false
  /\ includeSymbols noClassOptions = false
  /\ evalRand (generatePassword insertionSort TPassword noClassOptions)
       countingSource
     = emptyResult.
Proof.
  do 4 (split; [reflexivity|]).
  unfold evalRand.
  rewrite (no_class_zero_result insertionSort noClassOptions countingSource
             eq_refl eq_refl eq_refl eq_refl).
  reflexivity.
Defined.

(** A run for C8: 16 lowercase letters, a dash after every 4. *)
Lemma dashes_every_interval_witness :
  includeDashes dashedLowercaseOptions = true
  /\ (8 < String.length
            (shuffledSecret insertionSort dashedLowercaseOptions
               countingSource))%nat
  /\ join (stripInserted
             (String.length
                (shuffledSecret insertionSort dashedLowercaseOptions
                   countingSource) / 4) 0
             (split (password (evalRand
                (generatePassword insertionSort TPassword
                   dashedLowercaseOptions) countingSource))))
     = shuffledSecret insertionSort dashedLowercaseOptions countingSource.
Proof.
  split; [reflexivity|].
  split; [vm_compute; lia|].
  apply (dashes_every_interval insertionSort dashedLowercaseOptions
           countingSource); [reflexivity | vm_compute; lia].
Defined.

(** ** The required characters, claim C4 *)

Lemma required_symbol_in_literal (src : Uint32Source) :
  exists c,
    fst (drawRequiredChars symbolsOnlyOptions src) = [Some c]
    /\ In c (split requiredSymbols).
Proof.
  rewrite drawRequiredChars_run. cbn [fst requiredAlphabets symbolsOnlyOptions
    includeLowercase includeUppercase includeNumbers includeSymbols app
    pickEach].
  destruct (charAt_in_range requiredSymbols
              (drawn src 0 (N.of_nat (String.length requiredSymbols))))
    as [c [E H]]; [apply drawn_lt; simpl; lia|].
  exists c. now rewrite E.
Qed.

(** C4, as the code has it: for every class flag that is set, one required
    character is drawn, in the order lowercase, uppercase, numbers, symbols,
    each by one call of [getSecureRandom] on the next word of the stream;
    the lowercase, uppercase and number characters come from the 26, 26 and
    10 characters of their seed alphabets, the symbol from the 8 characters
    [!@#$%^&*], the first 8 of the 26 symbols of the character set; the
    ambiguity filter plays no part. *)
Theorem required_chars_drawn (o : PasswordOptions) (src : Uint32Source) :
  drawRequiredChars o src
  = (pickEach src 0
       ((if includeLowercase o then [lower] else [])
        ++ (if includeUppercase o then [upper] else [])
        ++ (if includeNumbers o then [numbers] else [])
        ++ (if includeSymbols o then [requiredSymbols] else [])),
     fun k => src (List.length (requiredAlphabets o) + k)%nat)
  /\ (exists req,
        fst (drawRequiredChars o src) = map Some req
        /\ Forall2 (fun c alpha => In c (split alpha)) req
             (requiredAlphabets o))
  /\ List.length (fst (drawRequiredChars o src))
     = (Nat.b2n (includeLowercase o) + Nat.b2n (includeUppercase o)
        + Nat.b2n (includeNumbers o) + Nat.b2n (includeSymbols o))%nat
  /\ map String.length [lower; upper; numbers; requiredSymbols; symbols]
     = [26; 26; 10; 8; 26]%nat
  /\ requiredSymbols = substring 0 8 symbols
  /\ (forall b,
        drawRequiredChars
          {| length := length o;
             includeLowercase := includeLowercase o;
             includeUppercase := includeUppercase o;
             includeNumbers := includeNumbers o;
             includeSymbols := includeSymbols o;
             excludeAmbiguous := b;
             includeDashes := includeDashes o |} src
        = drawRequiredChars o src).
Proof.
  split; [apply drawRequiredChars_run|].
  split; [|split; [|split; [|split]]].
  - rewrite drawRequiredChars_run. cbn [fst].
    apply pickEach_some, requiredAlphabets_nonempty.
  - rewrite drawRequiredChars_run. cbn [fst]. unfold requiredAlphabets.
    destruct (includeLowercase o), (includeUppercase o), (includeNumbers o),
      (includeSymbols o); reflexivity.
  - reflexivity.
  - reflexivity.
  - intros b. rewrite !drawRequiredChars_run. reflexivity.
Qed.

(** The required symbol of C4 is not drawn from the whole symbol alphabet:
    on a stream whose first word is 8 the code picks ['!'], index [8 mod 8]
    of [!@#$%^&*], where a draw from the 26 symbols picks ['('], index
    [8 mod 26]; and ['('], a symbol of the character set, is the required
    character on no stream. *)
Lemma required_symbol_full_alphabet_counterexample :
  fst (drawRequiredChars symbolsOnlyOptions (constSource 8))
  = [Some "!"%char]
  /\ specRequiredChars symbolsOnlyOptions (constSource 8) = [Some "("%char]
  /\ fst (drawRequiredChars symbolsOnlyOptions (constSource 8))
     <> specRequiredChars symbolsOnlyOptions (constSource 8)
  /\ In "("%char (split symbols)
  /\ (forall src,
        fst (drawRequiredChars symbolsOnlyOptions src) <> [Some "("%char]).
Proof.
  split; [reflexivity|]. split; [reflexivity|].
  split; [vm_compute; discriminate|].
  split; [vm_compute; tauto|].
  intros src H.
  destruct (required_symbol_in_literal src) as [c [E Hin]].
  rewrite E in H. injection H as ->.
  vm_compute in Hin. intuition discriminate.
Qed.

(** ** The randomness source: range and modulo bias *)

(** X1: for a positive [max], [getSecureRandom max] returns a value below
    [max] that differs from the 32-bit word it read by a multiple of [max],
    and it consumes exactly one word of the stream. *)
Theorem getSecureRandom_range (max : N) (src : Uint32Source) :
  (0 < max)%N ->
  (fst (getSecureRandom max src) < max)%N
  /\ (exists q, (src 0%nat mod 2 ^ 32
                 = q * max + fst (getSecureRandom max src))%N)
  /\ snd (getSecureRandom max src) = (fun k => src (S k)).
Proof.
  intros H. rewrite getSecureRandom_run. cbn [fst snd].
  split; [now apply drawn_lt|]. split; [|reflexivity].
  unfold drawn. exists ((src 0%nat mod 2 ^ 32) / max)%N.
  pose proof (N.div_mod (src 0%nat mod 2 ^ 32) max ltac:(lia)). lia.
Qed.

(** [getSecureRandom 26] on a stream that starts with 100. *)
Lemma getSecureRandom_range_witness :
  (0 < 26)%N /\ (fst (getSecureRandom 26 (constSource 100)) < 26)%N.
Proof.
  split; [reflexivity|].
  apply (getSecureRandom_range 26 (constSource 100)). reflexivity.
Defined.




(** ** The character set: members, duplicates, size *)

Lemma in_split_if_append (b : bool) (s a : string) (c : ascii) :
  In c (split (if b then s ++ a else s))
  <-> In c (split s) \/ (b = true /\ In c (split a)).
Proof.
  destruct b.
  - rewrite split_app, in_app_iff. intuition.
  - intuition discriminate.
Qed.

Lemma nodup_fixpoint_NoDup (l : list ascii) :
  nodup ascii_dec l = l -> NoDup l.
Proof. intros H. rewrite <- H. apply NoDup_nodup. Qed.

Lemma includes_In (s : string) (c : ascii) :
  includes s c = true <-> In c (split s).
Proof.
  unfold includes. rewrite existsb_exists. split.
  - intros [a [Ha E]]. apply Ascii.eqb_eq in E. now subst a.
  - intros H. exists c. split; [exact H | apply Ascii.eqb_refl].
Qed.

Lemma in_charset_iff (o : PasswordOptions) (c : ascii) :
  In c (split (generateCharacterSet o))
  <-> ((includeLowercase o = true /\ In c (split lower))
       \/ (includeUppercase o = true /\ In c (split upper))
       \/ (includeNumbers o = true /\ In c (split numbers))
       \/ (includeSymbols o = true /\ In c (split symbols)))
      /\ (excludeAmbiguous o = true -> ~ In c (split ambiguous)).
Proof.
  unfold generateCharacterSet. cbv zeta.
  assert (N : ~ In c (split "")) by (intros []).
  pose proof (includes_In ambiguous c) as Hamb.
  destruct (excludeAmbiguous o).
  - rewrite split_join, filter_In, !in_split_if_append, negb_true_iff.
    rewrite <- Hamb. split.
    + intros [H E]. split; [tauto|]. intros _. congruence.
    + intros [H E]. split; [tauto|].
      destruct (includes ambiguous c); [exfalso; now apply E|reflexivity].
  - rewrite !in_split_if_append. split; [|tauto].
    intros H. split; [tauto | discriminate].
Qed.

Lemma charset_NoDup (o : PasswordOptions) :
  NoDup (split (generateCharacterSet o)).
Proof.
  destruct o as [len lo up nu sy ea da].
  apply nodup_fixpoint_NoDup.
  destruct lo, up, nu, sy, ea; vm_compute; reflexivity.
Qed.

(** X3: a character belongs to the generated character set exactly when it
    belongs to the seed alphabet of a selected class and, when
    [excludeAmbiguous] is set, is none of [O], [0], [I], [l], [1]; and the
    character set never holds a character twice. *)
Theorem charset_members (o : PasswordOptions) :
  (forall c,
     In c (split (generateCharacterSet o))
     <-> ((includeLowercase o = true /\ In c (split lower))
          \/ (includeUppercase o = true /\ In c (split upper))
          \/ (includeNumbers o = true /\ In c (split numbers))
          \/ (includeSymbols o = true /\ In c (split symbols)))
         /\ (excludeAmbiguous o = true -> ~ In c (split ambiguous)))
  /\ NoDup (split (generateCharacterSet o)).
Proof.
  split; [intros c; apply in_charset_iff | apply charset_NoDup].
Qed.

(** X4: the size of the character set is the sum over the selected classes
    of 26, 26, 10 and 26 characters, or of 25, 24, 8 and 26 when
    [excludeAmbiguous] is set; it never exceeds 88, and is at least 8 when
    a class is selected. *)
Theorem charset_size (o : PasswordOptions) :
  String.length (generateCharacterSet o)
  = ((if includeLowercase o
      then (if excludeAmbiguous o then 25 else 26) else 0)
     + (if includeUppercase o
        then (if excludeAmbiguous o then 24 else 26) else 0)
     + (if includeNumbers o
        then (if excludeAmbiguous o then 8 else 10) else 0)
     + (if includeSymbols o then 26 else 0))%nat
  /\ (String.length (generateCharacterSet o) <= 88)%nat
  /\ (anyClass o = true ->
      (8 <= String.length (generateCharacterSet o))%nat).
Proof.
  split; [|split].
  - destruct o as [len lo up nu sy ea da]. cbn [includeLowercase
      includeUppercase includeNumbers includeSymbols excludeAmbiguous].
    destruct lo, up, nu, sy, ea; vm_compute; reflexivity.
  - destruct o as [len lo up nu sy ea da].
    destruct lo, up, nu, sy, ea; vm_compute; repeat constructor.
  - apply charset_size_ge_8.
Qed.

(** The smallest non-empty character set: digits without [0] and [1]. *)
Lemma charset_size_witness :
  anyClass (mkOptions 16 false false true false true false) = true
  /\ (8 <= String.length
             (generateCharacterSet
                (mkOptions 16 false false true false true false)))%nat.
Proof.
  split; [reflexivity|].
  apply (charset_size (mkOptions 16 false false true false true false)).
  reflexivity.
Defined.

(** ** The assembled password, word by word of the stream *)

Lemma classCount_alphabets (o : PasswordOptions) :
  List.length (requiredAlphabets o) = classCount o.
Proof.
  unfold requiredAlphabets, classCount.
  destruct (includeLowercase o), (includeUppercase o), (includeNumbers o),
    (includeSymbols o); reflexivity.
Qed.

Lemma fillChars_shift (src : Uint32Source) (charset : string) (m n : nat) :
  forall k,
    fillChars (fun i => src (m + i)%nat) k n charset
    = fillChars src (m + k) n charset.
Proof.
  induction n as [|n IH]; intros k; cbn [fillChars]; [reflexivity|].
  rewrite IH, Nat.add_succ_r. reflexivity.
Qed.

Lemma fillLoop_draws (charset : string) :
  charset <> "" ->
  forall n password src, exists fill,
    fillChars src 0 n charset = map Some fill
    /\ fillLoop n charset password src
       = (password ++ join fill, fun i => src (n + i)%nat).
Proof.
  intros Hne. assert (Hpos : (0 < N.of_nat (String.length charset))%N).
  { destruct charset; [congruence | simpl; lia]. }
  induction n as [|n IH]; intros password src.
  - exists []. cbn. now rewrite append_nil_r.
  - cbn [fillLoop fillChars]. rewrite bind_run, getSecureRandom_run.
    cbn [fst snd].
    destruct (charAt_in_range charset
                (drawn src 0 (N.of_nat (String.length charset))))
      as [c [Ec Hc]]; [now apply drawn_lt|].
    rewrite Ec.
    destruct (IH (password ++ charToString (Some c)) (fun k => src (S k)))
      as [fill [Ef Er]].
    exists (c :: fill). split.
    + cbn [map]. f_equal. rewrite <- Ef.
      symmetry. apply (fillChars_shift src charset 1 n 0).
    + rewrite Er. cbn [charToString join string_of_list_ascii].
      rewrite append_assoc. reflexivity.
Qed.

(** X5: with a non-empty character set, the password before the shuffle is
    the required characters followed by the fill, every character decided
    by one word of the stream: word [j] decides required character [j], and
    the words after the required ones index the character set; the number
    of characters, which is the number of words consumed, is the larger of
    [options.length] and the number of selected classes. *)
Theorem assemblePassword_draws (o : PasswordOptions) (charset : string)
    (src : Uint32Source) :
  charset <> "" ->
  let k := classCount o in
  let n := Z.to_nat (length o - Z.of_nat k) in
  exists chars,
    (pickEach src 0 (requiredAlphabets o) ++ fillChars src k n charset)%list
    = map Some chars
    /\ fst (assemblePassword o charset src) = join chars
    /\ List.length chars = Nat.max k (Z.to_nat (length o))
    /\ forall i, snd (assemblePassword o charset src) i
                 = src (List.length chars + i)%nat.
Proof.
  intros Hne k n. unfold assemblePassword.
  rewrite bind_run, drawRequiredChars_run. cbn [fst snd].
  destruct (pickEach_some src _ (requiredAlphabets_nonempty o) 0%nat)
    as [req [E F]].
  assert (Lr : List.length req = k).
  { apply Forall2_length in F. now rewrite F, classCount_alphabets. }
  rewrite E, fold_append_some. cbn [append].
  rewrite length_join, Lr. fold n. rewrite classCount_alphabets. fold k.
  destruct (fillLoop_draws charset Hne n (join req)
              (fun i => src (k + i)%nat)) as [fill [Ef Er]].
  rewrite fillChars_shift, Nat.add_0_r in Ef.
  assert (Lf : List.length fill = n).
  { rewrite <- (length_map Some), <- Ef. clear.
    generalize k. induction n; intros; cbn; [reflexivity|now rewrite IHn]. }
  exists (req ++ fill)%list. rewrite Er. cbn [fst snd].
  repeat split.
  - now rewrite map_app, Ef.
  - now rewrite join_app.
  - rewrite length_app. lia.
  - intros i. rewrite length_app, Lr, Lf. f_equal. lia.
Qed.

(** A run for X5: four classes and a requested length of 2. *)
Lemma assemblePassword_draws_witness :
  generateCharacterSet shortAllClassesOptions <> ""
  /\ exists chars,
       fst (assemblePassword shortAllClassesOptions
              (generateCharacterSet shortAllClassesOptions) countingSource)
       = join chars
       /\ List.length chars = 4%nat.
Proof.
  split; [vm_compute; discriminate|].
  destruct (assemblePassword_draws shortAllClassesOptions
              (generateCharacterSet shortAllClassesOptions) countingSource)
    as [chars [_ [E [L _]]]]; [vm_compute; discriminate|].
  exists chars. split; [exact E | exact L].
Defined.

(** ** Characters of the generated password *)

Lemma dashLoop_filter (P : ascii -> bool) (d : nat) (l : list ascii) :
  P "-"%char = false ->
  filter P (split (dashLoop d 0 l "")) = filter P l.
Proof.
  intros HP. induction l as [|c l IH] using rev_ind; [reflexivity|].
  rewrite dashLoop_snoc.
  destruct ((0 <? 0 + List.length l)%nat
            && ((0 + List.length l) mod d =? 0)%nat).
  - rewrite !split_app, !filter_app, IH. cbn [split list_ascii_of_string
      filter]. rewrite HP. now rewrite app_nil_r.
  - rewrite split_app, !filter_app, IH. reflexivity.
Qed.

Lemma addDashes_filter (P : ascii -> bool) (o : PasswordOptions)
    (s : string) :
  P "-"%char = false ->
  filter P (split (addDashes o s)) = filter P (split s).
Proof.
  intros HP. unfold addDashes.
  destruct (includeDashes o && (8 <? String.length s)%nat); [|reflexivity].
  now apply dashLoop_filter.
Qed.

Lemma addDashes_chars (o : PasswordOptions) (s : string) (c : ascii) :
  In c (split (addDashes o s)) -> In c (split s) \/ c = "-"%char.
Proof.
  intros H. destruct (Ascii.eqb_spec c "-") as [E|E]; [now right|left].
  assert (HP : Ascii.eqb c "-" = false) by now apply Ascii.eqb_neq.
  assert (F : In c (filter (Ascii.eqb c) (split (addDashes o s)))).
  { apply filter_In. split; [exact H | apply Ascii.eqb_refl]. }
  rewrite addDashes_filter in F by exact HP.
  now apply filter_In in F.
Qed.

Lemma Permutation_filter_length {A} (f : A -> bool) (l m : list A) :
  Permutation l m ->
  List.length (filter f l) = List.length (filter f m).
Proof.
  induction 1 as [|x l m _ IH|x y l|l m n _ IH1 _ IH2]; cbn [filter].
  - reflexivity.
  - destruct (f x); cbn [List.length]; now rewrite IH.
  - destruct (f x), (f y); reflexivity.
  - now rewrite IH1.
Qed.

Lemma required_in_charset (o : PasswordOptions) (alpha : string)
    (c : ascii) :
  excludeAmbiguous o = false ->
  In alpha (requiredAlphabets o) -> In c (split alpha) ->
  In c (split (generateCharacterSet o)).
Proof.
  intros He Ha Hc. apply in_charset_iff.
  split; [|rewrite He; discriminate].
  unfold requiredAlphabets in Ha.
  destruct (includeLowercase o), (includeUppercase o), (includeNumbers o),
    (includeSymbols o); cbn [app In] in Ha;
    repeat (destruct Ha as [<-|Ha]; [auto 6 using requiredSymbols_incl|]);
    contradiction.
Qed.

Lemma filter_none {A} (f : A -> bool) (l : list A) :
  Forall (fun x => f x = false) l -> filter f l = [].
Proof.
  induction 1 as [|x l Hx _ IH]; cbn [filter]; [reflexivity|].
  now rewrite Hx.
Qed.

Lemma required_ambiguous_bound (req : list ascii) (alphas : list string) :
  Forall2 (fun c alpha => In c (split alpha)) req alphas ->
  (List.length (filter (includes ambiguous) req)
   <= List.length
        (filter (fun alpha => negb (alpha =? requiredSymbols)%string)
                alphas))%nat.
Proof.
  induction 1 as [|c alpha req alphas Hc _ IH]; cbn [filter];
    [apply Nat.le_refl|].
  destruct (String.eqb_spec alpha requiredSymbols) as [->|_]; cbn [negb].
  - assert (E : includes ambiguous c = false).
    { destruct (includes ambiguous c) eqn:E; [|reflexivity].
      apply includes_In in E. exfalso.
      vm_compute in Hc, E. intuition congruence. }
    now rewrite E.
  - destruct (includes ambiguous c); cbn [List.length]; lia.
Qed.

Lemma Forall2_pick_l {A B} (R : A -> B -> Prop) (l : list A) (m : list B) :
  Forall2 R l m -> forall x, In x l -> exists y, In y m /\ R x y.
Proof.
  induction 1 as [|x y l m Hxy _ IH]; intros z Hz; [inversion Hz|].
  destruct Hz as [<-|Hz].
  - exists y; split; [now left | exact Hxy].
  - destruct (IH z Hz) as [y' [Hin Hr]]. exists y'; split; [now right|exact Hr].
Qed.

Section Characters.

Variable sort : (ascii -> ascii -> Rand Z) -> list ascii -> Rand (list ascii).

Hypothesis sort_permutes :
  forall cmp l src, Permutation l (fst (sort cmp l src)).

(** X6: with a class selected, the password before dash insertion has
    [max(options.length, number of selected classes)] characters: exactly
    [options.length] for a length in the slider's range 6..64, and one
    character per selected class when [options.length] is smaller than
    their number, zero or negative. *)
Theorem shuffled_length (o : PasswordOptions) (src : Uint32Source) :
  anyClass o = true ->
  String.length (shuffledSecret sort o src)
  = Nat.max (classCount o) (Z.to_nat (length o))
  /\ ((6 <= length o <= 64)%Z ->
      Z.of_nat (String.length (shuffledSecret sort o src)) = length o)
  /\ ((length o <= Z.of_nat (classCount o))%Z ->
      String.length (shuffledSecret sort o src) = classCount o).
Proof.
  intros Hany.
  pose proof (shuffledSecret_length sort sort_permutes o src Hany) as L.
  rewrite classCount_alphabets in L.
  assert (classCount o <= 4)%nat.
  { unfold classCount.
    destruct (includeLowercase o), (includeUppercase o), (includeNumbers o),
      (includeSymbols o); cbn; lia. }
  repeat split; [exact L | intros; lia | intros; lia].
Qed.

(** X7: without [excludeAmbiguous], every character of the password before
    dash insertion belongs to the character set, and every character of
    the final password belongs to the character set or is a dash. *)
Theorem password_chars_in_charset (o : PasswordOptions)
    (src : Uint32Source) :
  anyClass o = true ->
  excludeAmbiguous o = false ->
  Forall (fun c => In c (split (generateCharacterSet o)))
         (split (shuffledSecret sort o src))
  /\ Forall (fun c => In c (split (generateCharacterSet o)) \/ c = "-"%char)
       (split (password (evalRand (generatePassword sort TPassword o) src))).
Proof.
  intros Hany He.
  destruct (shuffledSecret_permutes sort sort_permutes o src Hany)
    as [req [fill [P [_ [F2 [_ Ff]]]]]].
  assert (Hs : Forall (fun c => In c (split (generateCharacterSet o)))
                 (split (shuffledSecret sort o src))).
  { apply Forall_forall. intros c Hc.
    apply Permutation_sym in P.
    apply (Permutation_in _ P), in_app_or in Hc. destruct Hc as [Hc|Hc].
    - destruct (Forall2_pick_l _ _ _ F2 c Hc) as [alpha [Ha Hin]].
      eapply required_in_charset; eauto.
    - rewrite Forall_forall in Ff. now apply Ff. }
  split; [exact Hs|].
  destruct (plain_password_run sort o src Hany) as [Hp _]. rewrite Hp.
  apply Forall_forall. intros c Hc.
  apply addDashes_chars in Hc. destruct Hc as [Hc|Hc]; [left|now right].
  rewrite Forall_forall in Hs. now apply Hs.
Qed.

(** X8: with [excludeAmbiguous] set, the characters drawn from the
    character set are never ambiguous, so the password holds at most one
    ambiguous character per selected class among lowercase, uppercase and
    numbers (the required characters, drawn from the unfiltered
    alphabets), and none when only symbols are selected. *)
Theorem ambiguous_only_from_required (o : PasswordOptions)
    (src : Uint32Source) :
  anyClass o = true ->
  excludeAmbiguous o = true ->
  (countAmbiguous
     (password (evalRand (generatePassword sort TPassword o) src))
   <= ambiguousClassCount o)%nat
  /\ (countAmbiguous
        (password (evalRand (generatePassword sort TPassword o) src))
      <= 3)%nat.
Proof.
  intros Hany He.
  destruct (shuffledSecret_permutes sort sort_permutes o src Hany)
    as [req [fill [P [_ [F2 [_ Ff]]]]]].
  destruct (plain_password_run sort o src Hany) as [Hp _].
  assert (B : (countAmbiguous
                 (password (evalRand (generatePassword sort TPassword o) src))
               <= ambiguousClassCount o)%nat).
  { unfold countAmbiguous. rewrite Hp, addDashes_filter by reflexivity.
    rewrite <- (Permutation_filter_length _ _ _ P), filter_app, length_app.
    rewrite (filter_none _ fill).
    - cbn [List.length]. rewrite Nat.add_0_r.
      eapply Nat.le_trans; [apply (required_ambiguous_bound _ _ F2)|].
      unfold requiredAlphabets, ambiguousClassCount.
      destruct (includeLowercase o), (includeUppercase o),
        (includeNumbers o), (includeSymbols o); vm_compute;
        repeat constructor.
    - eapply Forall_impl; [|exact Ff]. intros c Hc.
      apply in_charset_iff in Hc. destruct Hc as [_ Hc].
      destruct (includes ambiguous c) eqn:E; [|reflexivity].
      apply includes_In in E. exfalso. now apply Hc. }
  split; [exact B|].
  eapply Nat.le_trans; [exact B|]. unfold ambiguousClassCount.
  destruct (includeLowercase o), (includeUppercase o), (includeNumbers o);
    cbn; lia.
Qed.

(** X9: [excludeAmbiguous] does not protect the required characters: when
    lowercase is selected and the first random word is 11 modulo 26, the
    password contains the ambiguous letter [l], with [excludeAmbiguous] set
    or not. *)
Theorem ambiguous_letter_reintroduced (o : PasswordOptions)
    (src : Uint32Source) :
  includeLowercase o = true ->
  drawn src 0 26 = 11%N ->
  In "l"%char
     (split (password (evalRand (generatePassword sort TPassword o) src)))
  /\ In "l"%char (split ambiguous).
Proof.
  intros Hl Hd.
  assert (Hany : anyClass o = true) by (unfold anyClass; now rewrite Hl).
  destruct (shuffledSecret_permutes sort sort_permutes o src Hany)
    as [req [fill [P [Ep _]]]].
  destruct (plain_password_run sort o src Hany) as [Hp _].
  split; [|vm_compute; tauto].
  rewrite Hp. apply addDashes_In.
  apply (Permutation_in _ P), in_or_app. left.
  unfold requiredAlphabets in Ep. rewrite Hl in Ep.
  cbn [app pickEach] in Ep.
  change (N.of_nat (String.length lower)) with 26%N in Ep.
  rewrite Hd in Ep. destruct req as [|c req]; [discriminate|].
  pose proof (f_equal (@hd_error _) Ep) as E.
  cbn [map hd_error] in E.
  change (charAt lower 11) with (Some "l"%char) in E.
  injection E as <-. now left.
Qed.

End Characters.

(** A run for X6: four classes and a requested length of 2 give 4
    characters. *)
Lemma shuffled_length_witness :
  anyClass shortAllClassesOptions = true
  /\ String.length
       (shuffledSecret insertionSort shortAllClassesOptions countingSource)
     = Nat.max (classCount shortAllClassesOptions)
               (Z.to_nat (length shortAllClassesOptions)).
Proof.
  split; [reflexivity|].
  exact (proj1 (shuffled_length insertionSort insertionSort_permutes
                  shortAllClassesOptions countingSource eq_refl)).
Defined.

(** A run for X7 on the default options. *)
Lemma password_chars_in_charset_witness :
  anyClass defaultOptions = true
  /\ excludeAmbiguous defaultOptions = false
  /\ Forall (fun c => In c (split (generateCharacterSet defaultOptions)))
       (split (shuffledSecret insertionSort defaultOptions countingSource)).
Proof.
  split; [reflexivity|]. split; [reflexivity|].
  apply (password_chars_in_charset insertionSort insertionSort_permutes
           defaultOptions countingSource); reflexivity.
Defined.

(** A run for X8: lowercase only, ambiguous characters excluded. *)
Lemma ambiguous_only_from_required_witness :
  anyClass lowercaseUnambiguousOptions = true
  /\ excludeAmbiguous lowercaseUnambiguousOptions = true
  /\ (countAmbiguous
        (password (evalRand
           (generatePassword insertionSort TPassword
              lowercaseUnambiguousOptions) countingSource))
      <= 3)%nat.
Proof.
  split; [reflexivity|]. split; [reflexivity|].
  apply (ambiguous_only_from_required insertionSort insertionSort_permutes
           lowercaseUnambiguousOptions countingSource); reflexivity.
Defined.

(** A run for X9: the first word is 11, the letter [l] is required. *)
Lemma ambiguous_letter_reintroduced_witness :
  includeLowercase lowercaseUnambiguousOptions = true
  /\ drawn (constSource 11) 0 26 = 11%N
  /\ In "l"%char
       (split (password (evalRand
          (generatePassword insertionSort TPassword
             lowercaseUnambiguousOptions) (constSource 11)))).
Proof.
  split; [reflexivity|]. split; [reflexivity|].
  apply (ambiguous_letter_reintroduced insertionSort insertionSort_permutes
           lowercaseUnambiguousOptions (constSource 11)); reflexivity.
Defined.

(** ** The strength decided on integers *)

Lemma times_log2_eq (len n k : nat) :
  (0 < n)%nat ->
  (Z.of_nat n ^ Z.of_nat len = 2 ^ Z.of_nat k)%Z ->
  (INR len * log2 (INR n) = INR k)%R.
Proof.
  intros Hn He.
  assert (Hx : (0 < INR n)%R) by (apply lt_0_INR; lia).
  assert (Hp : (INR n ^ len = 2 ^ k)%R).
  { rewrite INR_Z, !pow_IZR. now rewrite He. }
  apply (f_equal ln) in Hp. rewrite !ln_pow in Hp by lra.
  unfold log2. pose proof ln2_pos as H2.
  apply Rmult_eq_reg_r with (ln 2); [|lra].
  replace (INR len * (ln (INR n) / ln 2) * ln 2)%R
    with (INR len * ln (INR n))%R by (field; lra).
  exact Hp.
Qed.

Lemma entropy_vs_threshold (len n k : nat) :
  (0 < n)%nat ->
  if (Z.of_nat n ^ Z.of_nat len <? 2 ^ Z.of_nat k)%Z
  then (INR len * log2 (INR n) < INR k)%R
  else (INR k <= INR len * log2 (INR n))%R.
Proof.
  intros Hn.
  destruct (Z.ltb_spec (Z.of_nat n ^ Z.of_nat len) (2 ^ Z.of_nat k)) as [H|H].
  - now apply times_log2_lt.
  - apply Z.le_lteq in H. destruct H as [H|H].
    + left. now apply times_log2_gt.
    + right. symmetry. now apply times_log2_eq.
Qed.

Lemma strength_of_power (p : string) (n len : nat) :
  (0 < n)%nat ->
  getPasswordStrength p (INR len * log2 (INR n)) = tierOfPower n len.
Proof.
  intros Hn.
  pose proof (entropy_vs_threshold len n 28 Hn) as H28.
  pose proof (entropy_vs_threshold len n 35 Hn) as H35.
  pose proof (entropy_vs_threshold len n 59 Hn) as H59.
  pose proof (entropy_vs_threshold len n 127 Hn) as H127.
  rewrite (INR_Z 28) in H28. rewrite (INR_Z 35) in H35.
  rewrite (INR_Z 59) in H59. rewrite (INR_Z 127) in H127.
  change (Z.of_nat 28) with 28%Z in H28.
  change (Z.of_nat 35) with 35%Z in H35.
  change (Z.of_nat 59) with 59%Z in H59.
  change (Z.of_nat 127) with 127%Z in H127.
  unfold getPasswordStrength, tierOfPower. cbv zeta.
  set (e := (INR len * log2 (INR n))%R) in *.
  set (q := (Z.of_nat n ^ Z.of_nat len)%Z) in *.
  destruct (q <? 2 ^ 28)%Z, (q <? 2 ^ 35)%Z, (q <? 2 ^ 59)%Z,
    (q <? 2 ^ 127)%Z;
    destruct (Rlt_dec e 28); try lra;
    destruct (Rlt_dec e 35); try lra;
    destruct (Rlt_dec e 59); try lra;
    destruct (Rlt_dec e 127); try lra; reflexivity.
Qed.

(** X10: in password mode the strength is 0 exactly when no class is
    selected; otherwise it is the tier, between 1 and 5, obtained by
    comparing [charset.length ^ password.length] (the length of the final
    password, dashes included) with [2^28], [2^35], [2^59] and [2^127]. *)
Theorem password_strength_by_power
    (sort : (ascii -> ascii -> Rand Z) -> list ascii -> Rand (list ascii))
    (o : PasswordOptions) (src : Uint32Source) :
  let r := evalRand (generatePassword sort TPassword o) src in
  (strength r = 0%Z <-> anyClass o = false)
  /\ (anyClass o = true ->
      strength r
      = tierOfPower (String.length (generateCharacterSet o))
                    (String.length (password r))
      /\ (1 <= strength r <= 5)%Z).
Proof.
  intros r.
  assert (Hpos : anyClass o = true ->
                 strength r
                 = tierOfPower (String.length (generateCharacterSet o))
                               (String.length (password r))
                 /\ (1 <= strength r <= 5)%Z).
  { intros Hany.
    destruct (plain_password_run sort o src Hany) as [_ [He Hs]].
    fold r in He, Hs.
    pose proof (charset_size_ge_8 o Hany) as H8.
    split.
    - rewrite Hs, He. unfold calculateEntropy.
      apply strength_of_power. lia.
    - rewrite Hs.
      destruct (getPasswordStrength_cases (password r) (entropy r))
        as [[_ ->]|[[_ ->]|[[_ ->]|[[_ ->]|[_ ->]]]]]; lia. }
  split; [|exact Hpos].
  destruct (anyClass o) eqn:Hany.
  - destruct (Hpos eq_refl) as [_ B]. split; [lia | discriminate].
  - split; [reflexivity|]. intros _.
    unfold r, generatePassword, generatePlainPassword, evalRand.
    rewrite (charset_empty o Hany). reflexivity.
Qed.

(** The default options for X10: [88 ^ 16] lies between [2^59] and
    [2^127]. *)
Lemma password_strength_by_power_witness :
  anyClass defaultOptions = true
  /\ tierOfPower 88 16 = 4%Z
  /\ strength (evalRand
       (generatePassword insertionSort TPassword defaultOptions)
       countingSource)
     = tierOfPower (String.length (generateCharacterSet defaultOptions))
         (String.length
            (password (evalRand
               (generatePassword insertionSort TPassword defaultOptions)
               countingSource))).
Proof.
  split; [reflexivity|]. split; [reflexivity|].
  apply (password_strength_by_power insertionSort defaultOptions
           countingSource).
  reflexivity.
Defined.

(** ** The passphrase, word by word of the stream *)

Lemma passphraseToken_eq (s : Uint32Source) :
  passphraseToken s
  = (wordToString
       (nth_error WORD_LIST
          (N.to_nat (drawn s 0 (N.of_nat (List.length WORD_LIST)))))
     ++ numberToString (drawn s 1 100),
     fun i => s (S (S i))).
Proof. reflexivity. Qed.

Lemma arrayFrom_tokenAt (src : Uint32Source) (n : nat) :
  forall k s,
    (forall i, s i = src (2 * k + i)%nat) ->
    fst (arrayFrom n passphraseToken s) = map (tokenAt src) (seq k n)
    /\ forall i, snd (arrayFrom n passphraseToken s) i
                 = src (2 * (k + n) + i)%nat.
Proof.
  induction n as [|n IH]; intros k s Hs; cbn [arrayFrom seq map].
  - split; [reflexivity|]. intros i. cbn [ret snd].
    rewrite Hs. f_equal. lia.
  - rewrite bind_run, passphraseToken_eq. cbn [fst snd].
    destruct (IH (S k) (fun i => s (S (S i)))) as [Ef Es].
    { intros i. rewrite Hs. f_equal. lia. }
    rewrite bind_run. cbn [ret fst snd]. split.
    + rewrite Ef. f_equal. unfold tokenAt, drawn.
      rewrite !Hs, Nat.add_0_r. reflexivity.
    + intros i. rewrite Es. f_equal. lia.
Qed.

(** X11: in passphrase mode, with [n = clamp(floor(length / 4), 4, 8)],
    the passphrase is the tokens 0 to [n - 1] joined by ['-'], token [i]
    being the word of [WORD_LIST] at index [word(2i) mod 41] followed by
    the decimal digits of [word(2i+1) mod 100]; generation consumes exactly
    the first [2 n] words of the stream, and no engine sort is involved. *)
Theorem passphrase_draws
    (sort : (ascii -> ascii -> Rand Z) -> list ascii -> Rand (list ascii))
    (o : PasswordOptions) (src : Uint32Source) :
  let n := Z.to_nat (clamp (length o / 4) 4 8) in
  password (evalRand (generatePassword sort TPassphrase o) src)
  = joinWith "-" (map (tokenAt src) (seq 0 n))
  /\ (forall i, snd (generatePassword sort TPassphrase o src) i
                = src (2 * n + i)%nat)
  /\ List.length WORD_LIST = 41%nat.
Proof.
  intros n.
  destruct (arrayFrom_tokenAt src n 0 src) as [Ef Es].
  { intros i. reflexivity. }
  split; [|split; [|reflexivity]].
  - unfold generatePassword. rewrite generatePassphrase_run.
    cbn [password]. rewrite clamp_max_min. fold n. now rewrite Ef.
  - intros i. unfold generatePassword, generatePassphrase.
    rewrite bind_run. cbn [ret snd]. rewrite clamp_max_min. fold n.
    apply Es.
Qed.

Lemma length_joinWith_bounds (toks : list string) :
  Forall (fun t => (4 <= String.length t <= 11)%nat) toks ->
  toks <> [] ->
  (5 * List.length toks - 1 <= String.length (joinWith "-" toks)
   <= 12 * List.length toks - 1)%nat.
Proof.
  unfold joinWith.
  induction 1 as [|t toks Ht F IH]; intros Hne; [congruence|].
  destruct toks as [|u toks].
  - cbn [String.concat List.length]. lia.
  - change (String.concat "-" (t :: u :: toks))
      with (t ++ "-" ++ String.concat "-" (u :: toks)).
    rewrite !length_append.
    specialize (IH ltac:(discriminate)).
    cbn [List.length String.length] in *. lia.
Qed.

Lemma word_length_bounds (w : string) :
  In w WORD_LIST -> (3 <= String.length w <= 9)%nat.
Proof.
  intros H.
  assert (F : forallb (fun w => (3 <=? String.length w)%nat
                                && (String.length w <=? 9)%nat)
                WORD_LIST = true) by reflexivity.
  rewrite forallb_forall in F. specialize (F w H).
  apply andb_prop in F. destruct F as [F1 F2].
  apply Nat.leb_le in F1, F2. lia.
Qed.

Lemma number_length_bounds (k : N) :
  (k < 100)%N -> (1 <= String.length (numberToString k) <= 2)%nat.
Proof.
  intros H.
  assert (F : forallb
                (fun i => (1 <=? String.length (numberToString (N.of_nat i)))%nat
                          && (String.length (numberToString (N.of_nat i))
                              <=? 2)%nat)
                (seq 0 100) = true) by (vm_compute; reflexivity).
  rewrite forallb_forall in F.
  specialize (F (N.to_nat k)). rewrite N2Nat.id in F.
  assert (I : In (N.to_nat k) (seq 0 100)) by (apply in_seq; lia).
  apply F, andb_prop in I. destruct I as [F1 F2].
  apply Nat.leb_le in F1, F2. lia.
Qed.

(** X12: a passphrase of [n] tokens has between [5 n - 1] and [12 n - 1]
    characters, so between 19 and 95; its entropy, which is its length, is
    below 127, and its strength is never 5. *)
Theorem passphrase_length_and_strength
    (sort : (ascii -> ascii -> Rand Z) -> list ascii -> Rand (list ascii))
    (o : PasswordOptions) (src : Uint32Source) :
  let r := evalRand (generatePassword sort TPassphrase o) src in
  let n := Z.to_nat (clamp (length o / 4) 4 8) in
  (5 * n - 1 <= String.length (password r) <= 12 * n - 1)%nat
  /\ (19 <= String.length (password r) <= 95)%nat
  /\ (19 <= entropy r <= 95)%R
  /\ (1 <= strength r <= 4)%Z.
Proof.
  intros r n.
  assert (Hn : (4 <= n <= 8)%nat).
  { unfold n. rewrite <- clamp_max_min. lia. }
  destruct (arrayFrom_tokens n src) as [toks [E [L F]]].
  assert (P : password r
              = joinWith "-"
                  (map (fun t => fst t ++ numberToString (snd t)) toks)).
  { unfold r, generatePassword. rewrite generatePassphrase_run.
    cbn [password]. rewrite clamp_max_min. fold n. now rewrite E. }
  assert (B : (5 * n - 1 <= String.length (password r) <= 12 * n - 1)%nat).
  { rewrite P, <- L, <- (length_map (fun t => fst t ++ numberToString (snd t))).
    apply length_joinWith_bounds.
    - apply Forall_map. eapply Forall_impl; [|exact F].
      intros [w k] [Hw Hk]. cbn [fst snd] in *. rewrite length_append.
      pose proof (word_length_bounds w Hw).
      pose proof (number_length_bounds k Hk). lia.
    - destruct toks; [cbn in L; lia | discriminate]. }
  assert (B' : (19 <= String.length (password r) <= 95)%nat) by lia.
  assert (He : entropy r = INR (String.length (password r))).
  { unfold r, generatePassword. rewrite generatePassphrase_run.
    cbn [entropy password]. apply calculateEntropy_62. }
  assert (Be : (19 <= entropy r <= 95)%R).
  { rewrite He. destruct B' as [B1 B2].
    apply le_INR in B1, B2.
    rewrite (INR_Z 19) in B1. rewrite (INR_Z 95) in B2.
    change (Z.of_nat 19) with 19%Z in B1.
    change (Z.of_nat 95) with 95%Z in B2. lra. }
  repeat split; try lia; try lra.
  - assert (Hs : strength r = getPasswordStrength (password r) (entropy r)).
    { unfold r, generatePassword. rewrite generatePassphrase_run.
      reflexivity. }
    rewrite Hs.
    destruct (getPasswordStrength_cases (password r) (entropy r))
      as [[_ ->]|[[_ ->]|[[_ ->]|[[_ ->]|[H _]]]]]; try lia; lra.
  - assert (Hs : strength r = getPasswordStrength (password r) (entropy r)).
    { unfold r, generatePassword. rewrite generatePassphrase_run.
      reflexivity. }
    rewrite Hs.
    destruct (getPasswordStrength_cases (password r) (entropy r))
      as [[_ ->]|[[_ ->]|[[_ ->]|[[_ ->]|[H _]]]]]; try lia; lra.
Qed.

(** ** Number and place of the dashes *)

Lemma dash_quotient_range (n : nat) :
  (8 < n)%nat ->
  (3 <= (n - 1) / (n / 4) <= 5)%nat
  /\ ((n - 1) / (n / 4) = 3%nat <-> n mod 4 = 0%nat).
Proof.
  intros Hn.
  pose proof (Nat.div_mod_eq n 4) as E.
  pose proof (Nat.mod_upper_bound n 4 ltac:(lia)) as B.
  assert (Hq : (2 <= n / 4)%nat) by now apply dashInterval_ge_2.
  set (q := (n / 4)%nat) in *.
  assert (L : (3 <= (n - 1) / q)%nat)
    by (apply Nat.div_le_lower_bound; lia).
  assert (U : ((n - 1) / q < 6)%nat)
    by (apply Nat.Div0.div_lt_upper_bound; lia).
  split; [lia|]. split.
  - intros H3.
    pose proof (Nat.div_mod_eq (n - 1) q) as E1.
    pose proof (Nat.mod_upper_bound (n - 1) q ltac:(lia)) as B1.
    rewrite H3 in E1. lia.
  - intros H0. symmetry.
    apply Nat.div_unique with (r := (q - 1)%nat); lia.
Qed.

Lemma filter_partition_length {A} (f : A -> bool) (l : list A) :
  List.length l
  = (List.length (filter f l)
     + List.length (filter (fun x => negb (f x)) l))%nat.
Proof.
  induction l as [|x l IH]; [reflexivity|]. cbn [filter List.length].
  destruct (f x); cbn [negb List.length]; lia.
Qed.

(** X13: with [includeDashes] set and more than 8 characters before dash
    insertion, between 3 and 5 dashes are inserted, exactly 3 (four groups
    of equal size) when the length is a multiple of 4; the dashes of the
    final password are those inserted plus those drawn from the character
    set, and the last character of the final password is the last
    character of the shuffled one: no dash is appended at the end. *)
Theorem dash_count_and_end
    (sort : (ascii -> ascii -> Rand Z) -> list ascii -> Rand (list ascii))
    (o : PasswordOptions) (src : Uint32Source) :
  includeDashes o = true ->
  (8 < String.length (shuffledSecret sort o src))%nat ->
  let pre := shuffledSecret sort o src in
  let secret := password (evalRand (generatePassword sort TPassword o) src) in
  (String.length pre + 3 <= String.length secret
   <= String.length pre + 5)%nat
  /\ (String.length secret = (String.length pre + 3)%nat
      <-> String.length pre mod 4 = 0%nat)
  /\ (countChar "-" secret + String.length pre
      = countChar "-" pre + String.length secret)%nat
  /\ String.get (String.length secret - 1) secret
     = String.get (String.length pre - 1) pre.
Proof.
  intros Hdash Hlen pre secret.
  assert (Hne : generateCharacterSet o <> "").
  { intros E. unfold shuffledSecret in Hlen. rewrite E in Hlen.
    simpl in Hlen. lia. }
  assert (Hsecret : secret = addDashes o pre).
  { unfold secret, generatePassword.
    now rewrite generatePlainPassword_run by exact Hne. }
  fold pre in Hlen.
  pose proof (addDashes_length o pre) as L. rewrite <- Hsecret in L.
  unfold dashCount in L. rewrite Hdash in L.
  apply Nat.ltb_lt in Hlen as Hb. rewrite Hb in L. cbn [andb] in L.
  destruct (dash_quotient_range _ Hlen) as [R I].
  split; [lia|]. split; [rewrite <- I; lia|]. split.
  - unfold countChar.
    pose proof (filter_partition_length (Ascii.eqb "-") (split secret)) as P1.
    pose proof (filter_partition_length (Ascii.eqb "-") (split pre)) as P2.
    rewrite Hsecret in P1 at 3.
    rewrite addDashes_filter in P1 by reflexivity.
    rewrite !length_split in P1, P2. lia.
  - pose proof (dashInterval_ge_2 _ Hlen) as Hd.
    destruct (dashLoop_inv (String.length pre / 4) (split pre) ltac:(lia))
      as [_ [_ [Hget _]]].
    assert (Hs : secret = dashLoop (String.length pre / 4) 0 (split pre) "").
    { rewrite Hsecret. unfold addDashes. rewrite Hdash, Hb. reflexivity. }
    rewrite <- Hs, length_split in Hget.
    specialize (Hget (String.length pre - 1)%nat ltac:(lia)).
    rewrite !get_nth_error. rewrite <- Hget. f_equal. lia.
Qed.

(** A run for X13: 16 characters, 3 dashes. *)
Lemma dash_count_and_end_witness :
  includeDashes dashedLowercaseOptions = true
  /\ (8 < String.length
            (shuffledSecret insertionSort dashedLowercaseOptions
               countingSource))%nat
  /\ (String.length
        (password (evalRand
           (generatePassword insertionSort TPassword dashedLowercaseOptions)
           countingSource))
      = (String.length
           (shuffledSecret insertionSort dashedLowercaseOptions
              countingSource) + 3)%nat
      <-> String.length
            (shuffledSecret insertionSort dashedLowercaseOptions
               countingSource) mod 4 = 0%nat).
Proof.
  split; [reflexivity|].
  split; [vm_compute; lia|].
  apply (dash_count_and_end insertionSort dashedLowercaseOptions
           countingSource); [reflexivity | vm_compute; lia].
Defined.

(** ** Toast notifications *)

Lemma firesIn_cons_show (id0 now : Z) (message : string)
    (type : ToastState.ToastType) (rest : list ToastState.Event) :
  ToastState.firesIn id0 (ToastState.Show now message type :: rest)
  = ToastState.firesIn id0 rest.
Proof. reflexivity. Qed.

Lemma filter_filter {A} (f g : A -> bool) (l : list A) :
  filter f (filter g l) = filter (fun x => g x && f x) l.
Proof.
  induction l as [|x l IH]; [reflexivity|]. cbn [filter].
  destruct (g x); cbn [filter andb]; now rewrite IH.
Qed.

Lemma run_pending (events : list ToastState.Event) :
  forall toasts,
    ToastState.run events toasts
    = (filter (fun t => negb (ToastState.firesIn (ToastState.id t) events))
              toasts
       ++ ToastState.pending events)%list.
Proof.
  unfold ToastState.run.
  induction events as [|e events IH]; intros toasts.
  - cbn [fold_left ToastState.pending ToastState.firesIn existsb negb].
    now rewrite filter_true, app_nil_r.
  - cbn [fold_left]. rewrite IH. destruct e as [now message type|now].
    + cbn [ToastState.step ToastState.pending].
      unfold ToastState.showToast.
      rewrite filter_app, <- app_assoc. f_equal.
      cbn [filter ToastState.id].
      destruct (ToastState.firesIn now events); reflexivity.
    + cbn [ToastState.step ToastState.pending].
      unfold ToastState.timeoutCallback. rewrite filter_filter.
      f_equal. apply filter_ext. intros t.
      cbn [ToastState.firesIn existsb].
      rewrite negb_orb, (Z.eqb_sym now). reflexivity.
Qed.

Lemma pending_all_fired (events : list ToastState.Event) :
  (forall before now message type after,
     events = (before ++ ToastState.Show now message type :: after)%list ->
     ToastState.firesIn now after = true) ->
  ToastState.pending events = [].
Proof.
  induction events as [|e events IH]; intros H; [reflexivity|].
  assert (IH' : ToastState.pending events = []).
  { apply IH. intros before now message type after E.
    apply (H (e :: before) now message type after). now rewrite E. }
  destruct e as [now message type|now]; cbn [ToastState.pending].
  - rewrite (H [] now message type events eq_refl). exact IH'.
  - exact IH'.
Qed.

(** X14: after any sequence of [showToast] calls and timeout firings, the
    [toasts] state holds the initial toasts whose [id] no timeout named,
    followed by the toasts shown for which no timeout with their [id]
    fired afterwards, in the order they were shown; a timeout removes
    every toast carrying its [id], and once every call has been followed
    by its timeout the state is empty again. *)
Theorem toasts_after_events (events : list ToastState.Event) :
  (forall toasts,
     ToastState.run events toasts
     = (filter (fun t => negb (ToastState.firesIn (ToastState.id t) events))
               toasts
        ++ ToastState.pending events)%list)
  /\ (forall toasts now t,
        In t (ToastState.run (events ++ [ToastState.Timeout now]) toasts) ->
        ToastState.id t <> now)
  /\ ((forall before now message type after,
         events = (before ++ ToastState.Show now message type :: after)%list ->
         ToastState.firesIn now after = true) ->
      ToastState.run events [] = []).
Proof.
  split; [apply run_pending|]. split.
  - intros toasts now t Hin.
    unfold ToastState.run in Hin. rewrite fold_left_app in Hin.
    cbn [fold_left ToastState.step] in Hin.
    unfold ToastState.timeoutCallback in Hin.
    apply filter_In in Hin. destruct Hin as [_ Hin].
    apply negb_true_iff, Z.eqb_neq in Hin. exact Hin.
  - intros H. rewrite run_pending. cbn [filter app].
    now apply pending_all_fired.
Qed.

(** Two toasts shown in the same millisecond and one timeout: both are
    removed. *)
Lemma toasts_after_events_witness :
  ToastState.run
    [ToastState.Show 5 "Password copied to clipboard!" ToastState.Success;
     ToastState.Show 5 "Password downloaded!" ToastState.Success;
     ToastState.Timeout 5]
    [] = [].
Proof.
  apply (proj2 (proj2 (toasts_after_events
    [ToastState.Show 5 "Password copied to clipboard!" ToastState.Success;
     ToastState.Show 5 "Password downloaded!" ToastState.Success;
     ToastState.Timeout 5]))).
  intros before now message type after E.
  destruct before as [|e0 before]; [injection E as <- _ _ <-; reflexivity|].
  injection E as _ E.
  destruct before as [|e1 before]; [injection E as <- _ _ <-; reflexivity|].
  injection E as _ E.
  destruct before as [|e2 before]; [discriminate E|].
  injection E as _ E. destruct before; discriminate E.
Defined.

(** ** Strength against length and character set *)

Lemma log2_nonneg (n : nat) : (0 < n)%nat -> (0 <= log2 (INR n))%R.
Proof.
  intros H. unfold log2.
  assert (1 <= INR n)%R by (apply (le_INR 1); lia).
  assert (0 <= ln (INR n))%R.
  { destruct H0 as [H0|<-]; [|rewrite ln_1; lra].
    rewrite <- ln_1. left. apply ln_increasing; lra. }
  pose proof ln2_pos. apply Rmult_le_pos; [assumption|].
  left. now apply Rinv_0_lt_compat.
Qed.

Lemma log2_le (n m : nat) :
  (0 < n <= m)%nat -> (log2 (INR n) <= log2 (INR m))%R.
Proof.
  intros [Hn Hm]. apply Nat.le_lteq in Hm. destruct Hm as [Hm| ->]; [|lra].
  left. apply log2_increasing. split.
  - apply lt_0_INR. exact Hn.
  - now apply lt_INR.
Qed.

Lemma getPasswordStrength_le (p q : string) (e1 e2 : R) :
  (e1 <= e2)%R ->
  (getPasswordStrength p e1 <= getPasswordStrength q e2)%Z.
Proof.
  intros Hle.
  destruct (getPasswordStrength_cases p e1)
    as [[H1 ->]|[[H1 ->]|[[H1 ->]|[[H1 ->]|[H1 ->]]]]];
  destruct (getPasswordStrength_cases q e2)
    as [[H2 ->]|[[H2 ->]|[[H2 ->]|[[H2 ->]|[H2 ->]]]]];
  first [lia | lra].
Qed.

(** X15: in password mode, of two generated passwords the one that is at
    least as long (dashes included) and comes from a character set at
    least as large never has the lower strength, nor the lower entropy. *)
Theorem strength_monotone
    (sort : (ascii -> ascii -> Rand Z) -> list ascii -> Rand (list ascii))
    (o1 o2 : PasswordOptions) (src1 src2 : Uint32Source) :
  anyClass o1 = true ->
  (String.length (generateCharacterSet o1)
   <= String.length (generateCharacterSet o2))%nat ->
  let r1 := evalRand (generatePassword sort TPassword o1) src1 in
  let r2 := evalRand (generatePassword sort TPassword o2) src2 in
  (String.length (password r1) <= String.length (password r2))%nat ->
  (entropy r1 <= entropy r2)%R /\ (strength r1 <= strength r2)%Z.
Proof.
  intros Hany1 Hc r1 r2 Hl.
  pose proof (charset_size_ge_8 o1 Hany1) as H8.
  assert (Hany2 : anyClass o2 = true).
  { destruct (anyClass o2) eqn:E; [reflexivity|].
    rewrite (charset_empty o2 E) in Hc. cbn in Hc. lia. }
  destruct (plain_password_run sort o1 src1 Hany1) as [_ [He1 Hs1]].
  destruct (plain_password_run sort o2 src2 Hany2) as [_ [He2 Hs2]].
  fold r1 in He1, Hs1. fold r2 in He2, Hs2.
  assert (E : (entropy r1 <= entropy r2)%R).
  { rewrite He1, He2. unfold calculateEntropy.
    apply Rmult_le_compat.
    - apply pos_INR.
    - apply log2_nonneg. lia.
    - now apply le_INR.
    - apply log2_le. lia. }
  split; [exact E|]. rewrite Hs1, Hs2. now apply getPasswordStrength_le.
Qed.

(** Lowercase only against the four classes, 16 characters each. *)
Lemma strength_monotone_witness :
  anyClass lowercaseUnambiguousOptions = true
  /\ (strength (evalRand
        (generatePassword insertionSort TPassword lowercaseUnambiguousOptions)
        countingSource)
      <= strength (evalRand
           (generatePassword insertionSort TPassword defaultOptions)
           countingSource))%Z.
Proof.
  split; [reflexivity|].
  apply (strength_monotone insertionSort lowercaseUnambiguousOptions
           defaultOptions countingSource countingSource).
  - reflexivity.
  - vm_compute. repeat constructor.
  - vm_compute. repeat constructor.
Defined.
